(** * crypto-rsi-dashboard-hunter: the streaming RSI engine

    A shallow embedding of [src/lib/websocket.ts] (class
    [BinanceWebSocketManager]) and of the indicator functions of
    [src/lib/binance.ts] ([wilderRSI], [getRSISignal]).

    Conventions of the embedding.
    - A JavaScript [number] that carries a price, a volume or an RSI is a
      rational ([Q]): arithmetic is exact.  IEEE results that are not finite
      rationals (a division by zero gives NaN or an infinity) are made
      explicit: every division of [wilderRSI] goes through [ndiv], which
      leaves the rationals with [NonFinite] when the divisor is zero.
      NaN and the infinities are not values of this model: its inputs are
      finite numbers and its results carry no rounding error.
    - [Float64] gives [wilderRSI] once more on IEEE 754 binary64 numbers
      (primitive floats), with NaN, the infinities and the rounding of every
      operation: what the function returns on a NaN close, on an overflow
      or at a rounding tie is read there.
    - [number | null] is [option Q]; [null] is [None].
    - [Map<string, V>] and [Set<string>] iterate in insertion order, and the
      code relies on it ([Array.from], stable [sort], [slice]); they are
      association lists and duplicate-free lists.  The plain object
      [klineHistory] is only read and written by key: a [gmap].
    - [TradingPair] objects are shared between the snapshot maps and the
      arrays handed to callers; they live in an object store ([objects])
      and the maps hold references.
    - Opening and closing sockets and arming the timers of the manager
      (reconnects, rebalancer, fallback) are recorded as a list of [Effect]s
      returned next to the new state; REST requests and the timers that
      pace them are not. *)

From Stdlib Require Import QArith Qround Lqa Ascii String.
From Stdlib Require PrimFloat SpecFloat FloatOps.
From stdpp Require Import gmap strings list fin_maps pretty sorting.

Local Open Scope Q_scope.

(** ** Numbers *)

Module Num.

(** [x < y] on numbers, as a boolean. *)
Definition Qlt_bool (x y : Q) : bool := negb (Qle_bool y x).

(** Outcome of a numeric computation: a value of the model, or a
    result that is not a finite rational. *)
Inductive Res (A : Type) : Type :=
  | Finite (a : A)
  | NonFinite.
Arguments Finite {A} a.
Arguments NonFinite {A}.

Definition bind {A B} (m : Res A) (k : A -> Res B) : Res B :=
  match m with
  | Finite a => k a
  | NonFinite => NonFinite
  end.

(** [a / b]: a rational unless [b] is zero. *)
Definition ndiv (a b : Q) : Res Q :=
  if Qeq_bool b 0 then NonFinite else Finite (a / b).

(** The multiple of 1/100 nearest to [x >= 0], the larger one on a tie. *)
Definition roundHundredths (x : Q) : Q :=
  Qred (Qmake (Qfloor (x * 100 + (1 # 2))) 100).

(** [parseFloat(x.toFixed(2))] (ECMAScript [Number.prototype.toFixed]: a
    negative [x] is rounded as [-x] and the sign put back). *)
Definition toFixed2 (x : Q) : Q :=
  if Qlt_bool x 0 then - roundHundredths (- x) else roundHundredths x.

End Num.
Export Num.

Notation "'do' x <- m ; k" := (bind m (fun x => k))
  (at level 10, x name, m at level 100, k at level 200).
Notation "'do' ' p <- m ; k" := (bind m (fun x => match x with p => k end))
  (at level 10, p pattern, m at level 100, k at level 200).

(** ** Indicator engine ([binance.ts]) *)

Inductive Signal : Type :=
  | STRONG_BUY | BUY | NEUTRAL | SELL | STRONG_SELL.

#[global] Instance Signal_eq_dec : EqDecision Signal.
Proof. solve_decision. Defined.

(** [changes[i-1] = closes[i] - closes[i-1]] for [1 <= i < closes.length]. *)
Definition priceChanges (closes : list Q) : list Q :=
  zip_with Qminus (tail closes) closes.

(** The first loop of [wilderRSI]: sums of gains and of losses. *)
Definition sumStep (sums : Q * Q) (change : Q) : Q * Q :=
  let '(gainSum, lossSum) := sums in
  if Qlt_bool 0 change then (gainSum + change, lossSum)
  else (gainSum, lossSum - change).

Definition initialSums (changes : list Q) : Q * Q :=
  foldl sumStep (0, 0) changes.

(** One round of Wilder's smoothing. *)
Definition smoothStep (period : Q) (avg : Q * Q) (change : Q) : Res (Q * Q) :=
  let '(avgGain, avgLoss) := avg in
  let gain := if Qlt_bool 0 change then change else 0 in
  let loss := if Qlt_bool change 0 then - change else 0 in
  do avgGain' <- ndiv (avgGain * (period - 1) + gain) period;
  do avgLoss' <- ndiv (avgLoss * (period - 1) + loss) period;
  Finite (avgGain', avgLoss').

Fixpoint smooth (period : Q) (changes : list Q) (avg : Q * Q) : Res (Q * Q) :=
  match changes with
  | [] => Finite avg
  | change :: rest => do avg' <- smoothStep period avg change; smooth period rest avg'
  end.

(** Average gain and average loss after both loops. *)
Definition wilderAverages (closes : list Q) (period : nat) : Res (Q * Q) :=
  let p := inject_Z (Z.of_nat period) in
  let changes := priceChanges closes in
  let '(gainSum, lossSum) := initialSums (take period changes) in
  do avgGain <- ndiv gainSum p;
  do avgLoss <- ndiv lossSum p;
  smooth p (drop period changes) (avgGain, avgLoss).

(** [wilderRSI(closes, period = 14)]. *)
Definition wilderRSI (closes : list Q) (period : nat) : Res (option Q) :=
  if (length closes <? period + 1)%nat then Finite None
  else
    do '(avgGain, avgLoss) <- wilderAverages closes period;
    if Qeq_bool avgLoss 0 then Finite (Some 100)
    else
      do rs <- ndiv avgGain avgLoss;
      do q <- ndiv 100 (1 + rs);
      let rsi := toFixed2 (100 - q) in
      if Qlt_bool rsi 0 || Qlt_bool 100 rsi then Finite None
      else Finite (Some rsi).

(** [getRSISignal(rsi)].  [!rsi] holds for [null] and for the number zero. *)
Definition getRSISignal (rsi : option Q) : Signal :=
  match rsi with
  | None => NEUTRAL
  | Some r =>
      if Qeq_bool r 0 then NEUTRAL
      else if Qle_bool r 20 then STRONG_BUY
      else if Qle_bool r 30 then BUY
      else if Qle_bool 80 r then STRONG_SELL
      else if Qle_bool 70 r then SELL
      else NEUTRAL
  end.


(** ** JavaScript arrays, sets and maps *)

Module Js.

Section Arrays.
Context {A : Type}.

(** [arr.slice(0, end)] for an integer [end]: a negative [end] counts from
    the end of the array. *)
Definition sliceTo (e : Z) (arr : list A) : list A :=
  if (e <? 0)%Z then take (Z.to_nat (Z.of_nat (length arr) + e)) arr
  else take (Z.to_nat e) arr.

(** [arr.slice(-n)]: the last [n] entries. *)
Definition sliceLast (n : nat) (arr : list A) : list A :=
  drop (length arr - n) arr.

(** [arr.slice(i, i + n)]. *)
Definition sliceFrom (i n : nat) (arr : list A) : list A :=
  take n (drop i arr).

(** [arr.sort(cmp)].  The sort is stable: [a] stays in front of a later [b]
    unless [cmp(a, b) > 0]. *)
Fixpoint sortInsert (cmp : A -> A -> Q) (a : A) (sorted : list A) : list A :=
  match sorted with
  | [] => [a]
  | b :: rest =>
      if Qlt_bool 0 (cmp a b) then b :: sortInsert cmp a rest
      else a :: b :: rest
  end.

Definition sort (cmp : A -> A -> Q) (arr : list A) : list A :=
  foldr (sortInsert cmp) [] arr.

End Arrays.

Section Sets.
Context {A : Type} `{EqDecision A}.

(** [set.add(x)] on a [Set] kept in insertion order. *)
Definition setAdd (set : list A) (x : A) : list A :=
  if decide (x ∈ set) then set else set ++ [x].

(** [new Set(iterable)]. *)
Definition newSet (items : list A) : list A := foldl setAdd [] items.

End Sets.

Section Maps.
Context {V : Type}.

(** [map.set(key, v)] on a [Map] kept in insertion order: an existing key
    keeps its place. *)
Fixpoint mapSet (key : string) (v : V) (m : list (string * V))
  : list (string * V) :=
  match m with
  | [] => [(key, v)]
  | (k, w) :: rest =>
      if decide (k = key) then (k, v) :: rest
      else (k, w) :: mapSet key v rest
  end.

(** [Array.from(map.values())]. *)
Definition mapValues (m : list (string * V)) : list V := map snd m.

End Maps.

Definition lowerAscii (c : ascii) : ascii :=
  let n := nat_of_ascii c in
  if (65 <=? n)%nat && (n <=? 90)%nat then ascii_of_nat (n + 32) else c.

(** [s.toLowerCase()] on ASCII symbols. *)
Fixpoint toLowerCase (s : string) : string :=
  match s with
  | EmptyString => EmptyString
  | String c rest => String (lowerAscii c) (toLowerCase rest)
  end.

End Js.

(** ** Data model ([websocket.ts]) *)

Record TradingPair : Type := mkTradingPair {
  symbol : string;
  price : Q;
  volume24h : Q;
  change24h : Q;
  high24h : Q;
  low24h : Q;
  rsi1h : option Q;
  rsi4h : option Q;
  rsi1d : option Q;
  signal : Signal
}.

#[global] Instance TradingPair_inhabited : Inhabited TradingPair :=
  populate (mkTradingPair "" 0 0 0 0 0 None None None NEUTRAL).

(** One entry of a [klineHistory] array. *)
Record Candle : Type := mkCandle {
  close : Q;
  timestamp : Z
}.

(** A parsed kline message: [s], [k.i], [parseFloat(k.c)], [k.T], [k.x]. *)
Record BinanceKlineData : Type := mkKline {
  kd_s : string;
  kd_i : string;
  kd_c : Q;
  kd_T : Z;
  kd_x : bool
}.

Record WebSocket : Type := mkWebSocket { url : string }.

(** What a timer runs when it fires. *)
Inductive TimerAction : Type :=
  | ConnectSpotTicker
  | ConnectFuturesTicker
  | UpdateKlineStreams
  | FallbackRSICalculation (symbols : list string).

Record Timeout : Type := mkTimeout {
  delay : Z;
  action : TimerAction
}.

Inductive Effect : Type :=
  | NewWebSocket (ws : WebSocket)
  | CloseWebSocket (ws : WebSocket)
  | SetTimeout (t : Timeout)
  | SetInterval (t : Timeout)
  | ClearTimeout (t : Timeout).

(** A reference to a [TradingPair] object. *)
Definition ref : Type := nat.

(** The fields of [BinanceWebSocketManager] ([subscribers] left out). *)
Record Manager : Type := mkManager {
  spotTickerWs : option WebSocket;
  futuresTickerWs : option WebSocket;
  spotData : list (string * ref);
  futuresData : list (string * ref);
  objects : gmap ref TradingPair;
  klineHistory : gmap string (gmap string (list Candle));
  reconnectTimeouts : gmap string Timeout;
  initialized : bool;
  currentTopSymbols : list string;
  klineStreamMap : list (string * WebSocket);
  volumeCheckInterval : option Timeout
}.

Definition maxReconnectDelay : Z := 30000.
Definition initialReconnectDelay : Z := 1000.
Definition targetSymbolCount : nat := 15.

(** The manager after [new BinanceWebSocketManager()]. *)
Definition newManager : Manager :=
  mkManager None None [] [] ∅ ∅ ∅ false [] [] None.

Section Setters.
Variable st : Manager.

Definition withSpotTickerWs (ws : option WebSocket) : Manager :=
  mkManager ws (futuresTickerWs st) (spotData st) (futuresData st)
    (objects st) (klineHistory st) (reconnectTimeouts st) (initialized st)
    (currentTopSymbols st) (klineStreamMap st) (volumeCheckInterval st).

Definition withFuturesTickerWs (ws : option WebSocket) : Manager :=
  mkManager (spotTickerWs st) ws (spotData st) (futuresData st)
    (objects st) (klineHistory st) (reconnectTimeouts st) (initialized st)
    (currentTopSymbols st) (klineStreamMap st) (volumeCheckInterval st).

Definition withObjects (o : gmap ref TradingPair) : Manager :=
  mkManager (spotTickerWs st) (futuresTickerWs st) (spotData st)
    (futuresData st) o (klineHistory st) (reconnectTimeouts st)
    (initialized st) (currentTopSymbols st) (klineStreamMap st)
    (volumeCheckInterval st).

Definition withKlineHistory (h : gmap string (gmap string (list Candle)))
  : Manager :=
  mkManager (spotTickerWs st) (futuresTickerWs st) (spotData st)
    (futuresData st) (objects st) h (reconnectTimeouts st) (initialized st)
    (currentTopSymbols st) (klineStreamMap st) (volumeCheckInterval st).

Definition withReconnectTimeouts (t : gmap string Timeout) : Manager :=
  mkManager (spotTickerWs st) (futuresTickerWs st) (spotData st)
    (futuresData st) (objects st) (klineHistory st) t (initialized st)
    (currentTopSymbols st) (klineStreamMap st) (volumeCheckInterval st).

Definition withInitialized (b : bool) : Manager :=
  mkManager (spotTickerWs st) (futuresTickerWs st) (spotData st)
    (futuresData st) (objects st) (klineHistory st) (reconnectTimeouts st) b
    (currentTopSymbols st) (klineStreamMap st) (volumeCheckInterval st).

Definition withCurrentTopSymbols (s : list string) : Manager :=
  mkManager (spotTickerWs st) (futuresTickerWs st) (spotData st)
    (futuresData st) (objects st) (klineHistory st) (reconnectTimeouts st)
    (initialized st) s (klineStreamMap st) (volumeCheckInterval st).

Definition withKlineStreamMap (m : list (string * WebSocket)) : Manager :=
  mkManager (spotTickerWs st) (futuresTickerWs st) (spotData st)
    (futuresData st) (objects st) (klineHistory st) (reconnectTimeouts st)
    (initialized st) (currentTopSymbols st) m (volumeCheckInterval st).

Definition withVolumeCheckInterval (t : option Timeout) : Manager :=
  mkManager (spotTickerWs st) (futuresTickerWs st) (spotData st)
    (futuresData st) (objects st) (klineHistory st) (reconnectTimeouts st)
    (initialized st) (currentTopSymbols st) (klineStreamMap st) t.

(** The object behind a reference. *)
Definition deref (r : ref) : TradingPair := objects st !!! r.

End Setters.

(** ** Stream connection supervisor *)

Definition spotTickerUrl : string := "wss://stream.binance.com:9443/ws/!ticker@arr".
Definition futuresTickerUrl : string := "wss://fstream.binance.com/ws/!ticker@arr".

(** [scheduleReconnect(type, reconnectFn)]. *)
Definition scheduleReconnect (st : Manager) (type : string)
    (reconnectFn : TimerAction) : Manager * list Effect :=
  let delay :=
    Z.min (initialReconnectDelay * 2 ^ Z.of_nat (size (reconnectTimeouts st)))
          maxReconnectDelay in
  let timeout := mkTimeout delay reconnectFn in
  (withReconnectTimeouts st (<[type := timeout]> (reconnectTimeouts st)),
   [SetTimeout timeout]).

(** [clearReconnectTimeout(type)]. *)
Definition clearReconnectTimeout (st : Manager) (type : string)
  : Manager * list Effect :=
  match reconnectTimeouts st !! type with
  | Some timeout =>
      (withReconnectTimeouts st (delete type (reconnectTimeouts st)),
       [ClearTimeout timeout])
  | None => (st, [])
  end.

(** [connectSpotTicker()] and [connectFuturesTicker()]: the socket is
    created; its ['open'] and ['close'] handlers are the cases of
    [onTickerEvent] below. *)
Definition connectSpotTicker (st : Manager) : Manager * list Effect :=
  let ws := mkWebSocket spotTickerUrl in
  (withSpotTickerWs st (Some ws), [NewWebSocket ws]).

Definition connectFuturesTicker (st : Manager) : Manager * list Effect :=
  let ws := mkWebSocket futuresTickerUrl in
  (withFuturesTickerWs st (Some ws), [NewWebSocket ws]).

(** Events of the two ticker sockets. *)
Inductive TickerEvent : Type :=
  | SpotOpen | SpotClose | FuturesOpen | FuturesClose.

(** The ['open'] and ['close'] handlers installed by [connectSpotTicker] and
    [connectFuturesTicker].  A failed connection attempt ends in ['close']
    like a lost connection. *)
Definition onTickerEvent (st : Manager) (ev : TickerEvent)
  : Manager * list Effect :=
  match ev with
  | SpotOpen => clearReconnectTimeout st "spot-ticker"
  | SpotClose => scheduleReconnect st "spot-ticker" ConnectSpotTicker
  | FuturesOpen => clearReconnectTimeout st "futures-ticker"
  | FuturesClose => scheduleReconnect st "futures-ticker" ConnectFuturesTicker
  end.

(** A sequence of socket events, handled in order; the effects of all
    handlers, in order. *)
Fixpoint onTickerEvents (st : Manager) (evs : list TickerEvent)
  : Manager * list Effect :=
  match evs with
  | [] => (st, [])
  | ev :: rest =>
      let '(st1, eff1) := onTickerEvent st ev in
      let '(st2, eff2) := onTickerEvents st1 rest in
      (st2, eff1 ++ eff2)
  end.

(** The delays of the reconnect timers armed by a list of effects. *)
Definition reconnectDelays (effs : list Effect) : list Z :=
  omap (fun e => match e with
                 | SetTimeout t => Some (delay t)
                 | _ => None
                 end) effs.

(** [startVolumeMonitoring()]. *)
Definition startVolumeMonitoring (st : Manager) : Manager * list Effect :=
  let interval := mkTimeout 10000 UpdateKlineStreams in
  (withVolumeCheckInterval st (Some interval),
   [SetInterval interval; SetTimeout (mkTimeout 5000 UpdateKlineStreams)]).

(** [initialize()]. *)
Definition initialize (st : Manager) : Manager * list Effect :=
  if initialized st then (st, [])
  else
    let st0 := withInitialized st true in
    let '(st1, eff1) := connectSpotTicker st0 in
    let '(st2, eff2) := connectFuturesTicker st1 in
    let '(st3, eff3) := startVolumeMonitoring st2 in
    (st3, eff1 ++ eff2 ++ eff3).

(** ** Subscription rebalancer *)

(** The comparator [(a, b) => b.volume24h - a.volume24h] on references. *)
Definition byVolumeDesc (st : Manager) (a b : ref) : Q :=
  volume24h (deref st b) - volume24h (deref st a).

(** [Array.from(data.values()).sort(...).slice(0, targetSymbolCount)
    .map(pair => pair.symbol)]. *)
Definition topSymbols (st : Manager) (data : list (string * ref))
  : list string :=
  map (fun r => symbol (deref st r))
      (Js.sliceTo (Z.of_nat targetSymbolCount)
         (Js.sort (byVolumeDesc st) (Js.mapValues data))).

(** [new Set([...spotSymbols, ...futuresSymbols])]. *)
Definition newTopSymbols (st : Manager) : list string :=
  Js.newSet (topSymbols st (spotData st) ++ topSymbols st (futuresData st)).

(** [setsEqual(set1, set2)]. *)
Definition setsEqual (set1 set2 : list string) : bool :=
  if negb (length set1 =? length set2)%nat then false
  else forallb (fun item => bool_decide (item ∈ set2)) set1.

(** [closeOldKlineStreams()]. *)
Definition closeOldKlineStreams (st : Manager) : Manager * list Effect :=
  (withKlineStreamMap st [],
   map (fun '(_, ws) => CloseWebSocket ws) (klineStreamMap st)).

Definition intervals : list string := ["1h"; "4h"; "1d"].

(** [prioritySymbols.flatMap(symbol => intervals.map(interval =>
    `${symbol.toLowerCase()}@kline_${interval}`))]. *)
Definition allStreams (prioritySymbols : list string) : list string :=
  flat_map (fun symbol =>
              map (fun interval =>
                     Js.toLowerCase symbol +:+ "@kline_" +:+ interval)
                  intervals)
           prioritySymbols.

(** The loop [for (let i = 0; i < allStreams.length; i += 30)
    streamGroups.push(allStreams.slice(i, i + 30))]; [fuel] bounds the
    number of rounds. *)
Fixpoint streamGroupsFrom (fuel i : nat) (streams : list string)
  : list (list string) :=
  match fuel with
  | O => []
  | S fuel' =>
      if (i <? length streams)%nat
      then Js.sliceFrom i 30 streams :: streamGroupsFrom fuel' (i + 30) streams
      else []
  end.

Definition streamGroups (streams : list string) : list (list string) :=
  streamGroupsFrom (length streams) 0 streams.

Definition klineStreamUrl (streams : list string) : string :=
  "wss://stream.binance.com:9443/ws/" +:+ String.concat "/" streams.

Definition groupKey (groupIndex : nat) : string :=
  "group_" +:+ pretty groupIndex.

(** The body of the loop over [streamGroups]. *)
Definition openGroup (acc : list (string * WebSocket) * list Effect)
    (group : nat * list string) : list (string * WebSocket) * list Effect :=
  let '(streamMap, effs) := acc in
  let '(groupIndex, streams) := group in
  let ws := mkWebSocket (klineStreamUrl streams) in
  (Js.mapSet (groupKey groupIndex) ws streamMap, effs ++ [NewWebSocket ws]).

(** [connectKlineStreamsForSymbols(symbols)]. *)
Definition connectKlineStreamsForSymbols (st : Manager)
    (symbols : list string) : Manager * list Effect :=
  if (length symbols =? 0)%nat then (st, [])
  else
    let prioritySymbols := Js.sliceTo 10 symbols in
    let groups := streamGroups (allStreams prioritySymbols) in
    let '(streamMap, effs) :=
      foldl openGroup (klineStreamMap st, [])
            (zip (seq 0 (length groups)) groups) in
    (withKlineStreamMap st streamMap,
     effs ++ [SetTimeout (mkTimeout 30000
                            (FallbackRSICalculation prioritySymbols))]).

(** [updateKlineStreamsBasedOnVolume()]: one rebalance pass. *)
Definition updateKlineStreamsBasedOnVolume (st : Manager)
  : Manager * list Effect :=
  let newTop := newTopSymbols st in
  if (length newTop =? 0)%nat then (st, [])
  else
    let symbolsChanged := negb (setsEqual (currentTopSymbols st) newTop) in
    if symbolsChanged then
      let '(st1, eff1) := closeOldKlineStreams st in
      let st2 := withCurrentTopSymbols st1 newTop in
      let '(st3, eff3) := connectKlineStreamsForSymbols st2 newTop in
      (st3, eff1 ++ eff3)
    else (st, []).

(** ** Candle history store *)

(** The array [klineHistory[symbol][interval]], empty when undefined. *)
Definition history (h : gmap string (gmap string (list Candle)))
    (symbol interval : string) : list Candle :=
  default [] (default ∅ (h !! symbol) !! interval).

(** [processKlineData(klineData)]. *)
Definition processKlineData (st : Manager) (klineData : BinanceKlineData)
  : Manager :=
  if negb (kd_x klineData) then st
  else
    let symbol := kd_s klineData in
    let interval := kd_i klineData in
    let bySymbol := default ∅ (klineHistory st !! symbol) in
    let klines := default [] (bySymbol !! interval) in
    let pushed := klines ++ [mkCandle (kd_c klineData) (kd_T klineData)] in
    let kept :=
      if (100 <? length pushed)%nat then Js.sliceLast 100 pushed
      else pushed in
    withKlineHistory st
      (<[symbol := <[interval := kept]> bySymbol]> (klineHistory st)).

(** ** Indicator values of a symbol *)

(** The test [rsi !== null && rsi >= 0 && rsi <= 100]; a result that is not
    a finite number fails the comparisons. *)
Definition validRSI (rsi : Res (option Q)) : option Q :=
  match rsi with
  | Finite (Some r) => if Qle_bool 0 r && Qle_bool r 100 then Some r else None
  | _ => None
  end.

(** The body of the loop of [getRSIForSymbol] for one interval. *)
Definition rsiForInterval (bySymbol : gmap string (list Candle))
    (interval : string) (currentPrice : option Q) : option Q :=
  match bySymbol !! interval with
  | Some klines =>
      if (14 <=? length klines)%nat then
        let closes := map close klines in
        let closes :=
          match currentPrice with
          | Some p => closes ++ [p]
          | None => closes
          end in
        validRSI (wilderRSI closes 14)
      else None
  | None => None
  end.

Record RSIData : Type := mkRSIData {
  r_rsi1h : option Q;
  r_rsi4h : option Q;
  r_rsi1d : option Q
}.

(** [getRSIForSymbol(symbol, currentPrice?)]. *)
Definition getRSIForSymbol (st : Manager) (symbol : string)
    (currentPrice : option Q) : RSIData :=
  match klineHistory st !! symbol with
  | None => mkRSIData None None None
  | Some bySymbol =>
      mkRSIData (rsiForInterval bySymbol "1h" currentPrice)
                (rsiForInterval bySymbol "4h" currentPrice)
                (rsiForInterval bySymbol "1d" currentPrice)
  end.


(** ** Fallback recompute and snapshot queries *)

Section Queries.

(** The historical-candles endpoint: [rest symbol interval] is the list of
    [parseFloat(k[4])] over the klines of an [ok] response, and [None] when
    the request fails or the response is not [ok]. *)
Variable rest : string -> string -> option (list Q).

(** [Date.now()]. *)
Variable now : Z.

(** [closes.map((close, index) => ({ close, timestamp: Date.now() -
    (closes.length - 1 - index) * 3600000 }))]. *)
Definition seedHistory (closes : list Q) : list Candle :=
  imap (fun index close =>
          mkCandle close
            (now - (Z.of_nat (length closes) - 1 - Z.of_nat index) * 3600000))
       closes.

(** The body of the loop of [calculateRSIViaREST] for one interval. *)
Definition restInterval (st : Manager) (symbol interval : string) : Manager :=
  match rest symbol interval with
  | Some closes =>
      if (15 <=? length closes)%nat then
        match validRSI (wilderRSI closes 14) with
        | Some _ =>
            let bySymbol := default ∅ (klineHistory st !! symbol) in
            withKlineHistory st
              (<[symbol := <[interval := seedHistory closes]> bySymbol]>
                 (klineHistory st))
        | None => st
        end
      else st
  | None => st
  end.

(** [calculateRSIViaREST(symbol)].  Only what the requests write is
    modelled: the requests themselves, the [AbortSignal.timeout(10000)] of
    each and the pause [setTimeout(resolve, 100)] after each are no
    [Effect]s. *)
Definition calculateRSIViaREST (st : Manager) (symbol : string) : Manager :=
  foldl (fun st interval => restInterval st symbol interval) st intervals.

(** [coin.rsi1h === null || coin.rsi4h === null || coin.rsi1d === null]. *)
Definition isNull (v : option Q) : bool :=
  match v with
  | None => true
  | Some _ => false
  end.

Definition needsRSI (coin : TradingPair) : bool :=
  isNull (rsi1h coin) || isNull (rsi4h coin) || isNull (rsi1d coin).

(** The asynchronous function mapped over [coinsNeedingRSI]: it writes the
    history of [coin.symbol] and then the fields of the object [coin]. *)
Definition ensureRSIForCoin (st : Manager) (r : ref) : Manager :=
  let coin := deref st r in
  let st1 := calculateRSIViaREST st (symbol coin) in
  let rsiData := getRSIForSymbol st1 (symbol coin) (Some (price coin)) in
  let coin' :=
    mkTradingPair (symbol coin) (price coin) (volume24h coin)
      (change24h coin) (high24h coin) (low24h coin)
      (r_rsi1h rsiData) (r_rsi4h rsiData) (r_rsi1d rsiData)
      (getRSISignal (r_rsi1d rsiData)) in
  withObjects st1 (<[r := coin']> (objects st1)).

(** [ensureRSIForCoins(coins)], the coins handled one after the other. *)
Definition ensureRSIForCoins (st : Manager) (coins : list ref) : Manager :=
  let coinsNeedingRSI := filter (fun r => needsRSI (deref st r) = true) coins in
  if (length coinsNeedingRSI =? 0)%nat then st
  else foldl ensureRSIForCoin st coinsNeedingRSI.

(** The common body of [getSpotData(limit)] and [getFuturesData(limit)]:
    the array returned, the manager afterwards, and the sockets and timers
    of [initialize] when it runs (the requests of [ensureRSIForCoins] and
    their timers are not listed). *)
Definition getData (data : Manager -> list (string * ref)) (st : Manager)
    (limit : Z) : list ref * Manager * list Effect :=
  let '(st0, effs) :=
    if negb (initialized st) then initialize st else (st, []) in
  let sortedData :=
    Js.sliceTo limit (Js.sort (byVolumeDesc st0) (Js.mapValues (data st0))) in
  let st1 := ensureRSIForCoins st0 sortedData in
  (sortedData, st1, effs).

Definition getSpotData : Manager -> Z -> list ref * Manager * list Effect :=
  getData spotData.

Definition getFuturesData : Manager -> Z -> list ref * Manager * list Effect :=
  getData futuresData.

End Queries.

(** Strictly monotone close sequences, as boolean tests on consecutive
    entries. *)
Fixpoint strictlyIncreasing (closes : list Q) : bool :=
  match closes with
  | a :: ((b :: _) as rest) => Qlt_bool a b && strictlyIncreasing rest
  | _ => true
  end.

Fixpoint strictlyDecreasing (closes : list Q) : bool :=
  match closes with
  | a :: ((b :: _) as rest) => Qlt_bool b a && strictlyDecreasing rest
  | _ => true
  end.

(** ** More of JavaScript: strings and map deletion *)

Module JsText.

(** [s.endsWith(suffix)]. *)
Fixpoint endsWith (s suffix : string) : bool :=
  if String.eqb s suffix then true
  else match s with
       | EmptyString => false
       | String _ rest => endsWith rest suffix
       end.

(** [s.includes(sub)]. *)
Fixpoint includes (s sub : string) : bool :=
  if String.prefix sub s then true
  else match s with
       | EmptyString => false
       | String _ rest => includes rest sub
       end.

(** [s.split(sep)[0]] for a one-character separator: the text in front of
    the first [sep], all of [s] when there is none. *)
Fixpoint beforeFirst (sep : ascii) (s : string) : string :=
  match s with
  | EmptyString => EmptyString
  | String c rest =>
      if Ascii.eqb c sep then EmptyString else String c (beforeFirst sep rest)
  end.

Definition upperAscii (c : ascii) : ascii :=
  let n := nat_of_ascii c in
  if (97 <=? n)%nat && (n <=? 122)%nat then ascii_of_nat (n - 32) else c.

(** [s.toUpperCase()] on ASCII text. *)
Fixpoint toUpperCase (s : string) : string :=
  match s with
  | EmptyString => EmptyString
  | String c rest => String (upperAscii c) (toUpperCase rest)
  end.

(** [map.delete(key)] on a [Map] kept in insertion order. *)
Fixpoint mapDelete {V : Type} (key : string) (m : list (string * V))
  : list (string * V) :=
  match m with
  | [] => []
  | (k, w) :: rest =>
      if decide (k = key) then rest else (k, w) :: mapDelete key rest
  end.

(** [map.get(key)]. *)
Fixpoint mapGet {V : Type} (key : string) (m : list (string * V)) : option V :=
  match m with
  | [] => None
  | (k, w) :: rest => if decide (k = key) then Some w else mapGet key rest
  end.

End JsText.

(** ** Ticker ingestion *)

(** A parsed ticker: [s] and [parseFloat] of [c], [q], [P], [h], [l]. *)
Record BinanceTickerData : Type := mkTicker {
  t_s : string;
  t_c : Q;
  t_q : Q;
  t_P : Q;
  t_h : Q;
  t_l : Q
}.

Inductive Market : Type := Spot | Futures.

Definition otherMarket (market : Market) : Market :=
  match market with
  | Spot => Futures
  | Futures => Spot
  end.

(** [market === 'spot' ? this.spotData : this.futuresData]. *)
Definition dataMap (market : Market) (st : Manager) : list (string * ref) :=
  match market with
  | Spot => spotData st
  | Futures => futuresData st
  end.

Definition withDataMap (market : Market) (st : Manager)
    (m : list (string * ref)) : Manager :=
  match market with
  | Spot =>
      mkManager (spotTickerWs st) (futuresTickerWs st) m (futuresData st)
        (objects st) (klineHistory st) (reconnectTimeouts st) (initialized st)
        (currentTopSymbols st) (klineStreamMap st) (volumeCheckInterval st)
  | Futures =>
      mkManager (spotTickerWs st) (futuresTickerWs st) (spotData st) m
        (objects st) (klineHistory st) (reconnectTimeouts st) (initialized st)
        (currentTopSymbols st) (klineStreamMap st) (volumeCheckInterval st)
  end.

(** The filter of [processTickers]: USDT pairs that are not leveraged
    tokens. *)
Definition isTrackedSymbol (s : string) : bool :=
  JsText.endsWith s "USDT"
  && negb (JsText.includes s "UP")
  && negb (JsText.includes s "DOWN")
  && negb (JsText.includes s "BEAR")
  && negb (JsText.includes s "BULL").

(** [usdtTickers.sort((a, b) => parseFloat(b.q) - parseFloat(a.q))
    .slice(0, 50)]. *)
Definition sortedTickers (tickers : list BinanceTickerData)
  : list BinanceTickerData :=
  Js.sliceTo 50
    (Js.sort (fun a b => t_q b - t_q a)
       (List.filter (fun ticker => isTrackedSymbol (t_s ticker)) tickers)).

(** The object literal built in the loop of [processTickers]. *)
Definition tradingPairOf (st : Manager) (ticker : BinanceTickerData)
  : TradingPair :=
  let currentPrice := t_c ticker in
  let rsiData := getRSIForSymbol st (t_s ticker) (Some currentPrice) in
  mkTradingPair (t_s ticker) currentPrice (t_q ticker) (t_P ticker)
    (t_h ticker) (t_l ticker)
    (r_rsi1h rsiData) (r_rsi4h rsiData) (r_rsi1d rsiData)
    (getRSISignal (r_rsi1d rsiData)).

(** The body of the loop of [processTickers]: a new object is created and
    [dataMap.set(ticker.s, tradingPair)] makes the map refer to it. *)
Definition upsertTicker (market : Market) (st : Manager)
    (ticker : BinanceTickerData) : Manager :=
  let r := fresh (dom (objects st)) in
  withDataMap market
    (withObjects st (<[r := tradingPairOf st ticker]> (objects st)))
    (Js.mapSet (t_s ticker) r (dataMap market st)).

(** [processTickers(tickers, market)]: the manager afterwards and the array
    handed to the subscribers. *)
Definition processTickers (st : Manager) (tickers : list BinanceTickerData)
    (market : Market) : Manager * list ref :=
  let st' := foldl (upsertTicker market) st (sortedTickers tickers) in
  (st', Js.sort (byVolumeDesc st') (Js.mapValues (dataMap market st'))).

(** ** Candle connections: close and reconnect *)

(** [streams.map(s => s.split('@')[0].toUpperCase())]. *)
Definition symbolsInGroup (streams : list string) : list string :=
  map (fun s => JsText.toUpperCase (JsText.beforeFirst "@" s)) streams.

(** The ['close'] handler of the socket of group [groupIndex]: the entry is
    deleted and a timer is armed; the result carries its delay. *)
Definition onKlineClose (st : Manager) (groupIndex : nat) : Manager * Z :=
  (withKlineStreamMap st
     (JsText.mapDelete (groupKey groupIndex) (klineStreamMap st)),
   (10000 + Z.of_nat groupIndex * 2000)%Z).

(** What that timer runs, [streams] being the streams of the closed
    socket. *)
Definition reconnectKlineGroup (st : Manager) (streams : list string)
  : Manager * list Effect :=
  let stillRelevant :=
    List.filter (fun sym => bool_decide (sym ∈ currentTopSymbols st))
                (symbolsInGroup streams) in
  if (0 <? length stillRelevant)%nat
  then connectKlineStreamsForSymbols st stillRelevant
  else (st, []).

(** ** Shutdown *)

Module Lifecycle.

(** [close()].  [clearInterval] cancels a timer like [clearTimeout] does and
    is recorded as [ClearTimeout].  The reconnect timers are cleared in the
    iteration order of the map, which a [gmap] does not keep. *)
Definition close (st : Manager) : Manager * list Effect :=
  let timers :=
    map (fun '(_, t) => ClearTimeout t) (map_to_list (reconnectTimeouts st)) in
  let interval :=
    match volumeCheckInterval st with
    | Some t => [ClearTimeout t]
    | None => []
    end in
  let tickerSockets :=
    match spotTickerWs st with Some ws => [CloseWebSocket ws] | None => [] end
    ++ match futuresTickerWs st with
       | Some ws => [CloseWebSocket ws]
       | None => []
       end in
  let klineSockets :=
    map (fun '(_, ws) => CloseWebSocket ws) (klineStreamMap st) in
  (mkManager (spotTickerWs st) (futuresTickerWs st) [] [] (objects st) ∅ ∅
     false [] [] None,
   timers ++ interval ++ tickerSockets ++ klineSockets).

End Lifecycle.

(** ** Fallback for symbols without candles *)

Section Fallback.
Variable rest : string -> string -> option (list Q).
Variable now : Z.

(** [!this.klineHistory[symbol] ||
    Object.keys(this.klineHistory[symbol]).length === 0]. *)
Definition lacksHistory (st : Manager) (symbol : string) : bool :=
  match klineHistory st !! symbol with
  | None => true
  | Some bySymbol => (size bySymbol =? 0)%nat
  end.

(** [fallbackRSICalculation(symbols)]. *)
Definition fallbackRSICalculation (st : Manager) (symbols : list string)
  : Manager :=
  foldl (fun st symbol =>
           if lacksHistory st symbol then calculateRSIViaREST rest now st symbol
           else st)
        st symbols.

End Fallback.

(** ** The earlier [binance.ts] *)

Module Legacy.

(** [wilderRSI(closes, period = 14)] of the earlier revision of
    [binance.ts]: the same computation, returned without the range test. *)
Definition wilderRSI (closes : list Q) (period : nat) : Res (option Q) :=
  if (length closes <? period + 1)%nat then Finite None
  else
    do '(avgGain, avgLoss) <- wilderAverages closes period;
    if Qeq_bool avgLoss 0 then Finite (Some 100)
    else
      do rs <- ndiv avgGain avgLoss;
      do q <- ndiv 100 (1 + rs);
      Finite (Some (toFixed2 (100 - q))).

End Legacy.

(** ** The indicator in binary64 *)

Module Float64.
Import PrimFloat SpecFloat FloatOps.
Local Open Scope float_scope.

(** The number of an array length or of the [period] argument. *)
Definition ofNat (n : nat) : float :=
  SF2Prim (binary_normalize prec emax (Z.of_nat n) 0 false).

(** The integer [n] for which [n / 100 - m * 2^e] is closest to zero, the
    larger one when there are two (step 8 of [Number.prototype.toFixed]). *)
Definition hundredths (m : positive) (e : Z) : Z :=
  match e with
  | Zneg p => (200 * Zpos m + Z.pow_pos 2 p) / Z.pow_pos 2 (Pos.succ p)
  | _ => 100 * Zpos m * 2 ^ e
  end%Z.

(** [parseFloat(x.toFixed(2))].  [toFixed] prints NaN, an infinity and a
    number of magnitude at least 10^21 as [String(x)], which [parseFloat]
    reads back as [x]; otherwise it prints the decimal [n / 100] with the
    sign of a negative [x], and [parseFloat] returns the binary64 number
    nearest to that decimal. *)
Definition toFixed2 (x : float) : float :=
  match Prim2SF x with
  | S754_finite s m e =>
      let n := hundredths m e in
      if (10 ^ 23 <=? n)%Z then x
      else match n with
           | Zpos p =>
               SF2Prim (SFdiv prec emax (S754_finite s p 0)
                          (S754_finite false 100 0))
           | _ => if s then neg_zero else zero
           end
  | S754_zero _ => zero
  | _ => x
  end.

Definition priceChanges (closes : list float) : list float :=
  zip_with PrimFloat.sub (tail closes) closes.

Definition sumStep (sums : float * float) (change : float) : float * float :=
  let '(gainSum, lossSum) := sums in
  if 0 <? change then (gainSum + change, lossSum)
  else (gainSum, lossSum - change).

Definition smoothStep (period : float) (avg : float * float) (change : float)
  : float * float :=
  let '(avgGain, avgLoss) := avg in
  let gain := if 0 <? change then change else 0 in
  let loss := if change <? 0 then - change else 0 in
  ((avgGain * (period - 1) + gain) / period,
   (avgLoss * (period - 1) + loss) / period).

(** Average gain and average loss after both loops. *)
Definition wilderAverages (closes : list float) (period : nat)
  : float * float :=
  let p := ofNat period in
  let changes := priceChanges closes in
  let '(gainSum, lossSum) := foldl sumStep (0, 0) (take period changes) in
  foldl (smoothStep p) (gainSum / p, lossSum / p) (drop period changes).

(** [wilderRSI(closes, period = 14)]; [Some nan] is the number NaN. *)
Definition wilderRSI (closes : list float) (period : nat) : option float :=
  if (length closes <? period + 1)%nat then None
  else
    let '(avgGain, avgLoss) := wilderAverages closes period in
    if avgLoss =? 0 then Some 100
    else
      let rs := avgGain / avgLoss in
      let rsi := toFixed2 (100 - 100 / (1 + rs)) in
      if (rsi <? 0) || (100 <? rsi) then None else Some rsi.

(** The test [getRSIForSymbol] applies to a result of [wilderRSI]:
    [rsi !== null && rsi >= 0 && rsi <= 100]. *)
Definition validRSI (rsi : option float) : option float :=
  match rsi with
  | Some v => if (0 <=? v) && (v <=? 100) then Some v else None
  | None => None
  end.

(** Fifteen closes of which the eighth is NaN, as [parseFloat] returns for
    a close field that is not a number. *)
Definition corruptCloses : list float :=
  [100; 101; 102.5; 101; 103; 104; 102; nan; 105; 104.5; 106; 107; 105; 108;
   109].

(** Sixteen finite closes between 0 and 2^1023: the sums of gains and of
    losses overflow. *)
Definition overflowCloses : list float :=
  [0; 0x1p+1023; 0; 0x1p+1023; 0; 0x1p+1023; 0; 0x1p+1023;
   0; 0x1p+1023; 0; 0x1p+1023; 0; 0x1p+1023; 0; 0x1p+1023].

(** Fifteen closes whose RSI is the decimal tie 41.875 in exact
    arithmetic. *)
Definition tieCloses : list float := [94; 161] ++ replicate 13 68.

End Float64.

(** ** More sample predicates and inputs *)

(** No close is below the one before it. *)
Fixpoint nonDecreasing (closes : list Q) : bool :=
  match closes with
  | a :: ((b :: _) as rest) => Qle_bool a b && nonDecreasing rest
  | _ => true
  end.

(** Fifteen equal closes. *)
Definition flatCloses : list Q := replicate 15 42.

(** The candles of the closed messages of one symbol and interval, in
    arrival order. *)
Definition closedCandles (symbol interval : string)
    (msgs : list BinanceKlineData) : list Candle :=
  map (fun k => mkCandle (kd_c k) (kd_T k))
      (List.filter (fun k => kd_x k && bool_decide (kd_s k = symbol)
                             && bool_decide (kd_i k = interval)) msgs).

(** Every object carries the signal of its own daily RSI. *)
Definition signalConsistent (st : Manager) : Prop :=
  forall r pair,
    objects st !! r = Some pair -> signal pair = getRSISignal (rsi1d pair).

(** A symbol as the exchange assigns it: no lower-case letter and no [@]. *)
Definition isPlainChar (c : ascii) : bool :=
  let n := nat_of_ascii c in
  negb ((97 <=? n)%nat && (n <=? 122)%nat) && negb (n =? 64)%nat.

Fixpoint isPlainSymbol (s : string) : bool :=
  match s with
  | EmptyString => true
  | String c rest => isPlainChar c && isPlainSymbol rest
  end.

(** ** What a query may touch *)

(** The ticker fields of two objects agree. *)
Definition sameTicker (a b : TradingPair) : Prop :=
  symbol a = symbol b /\ price a = price b /\ volume24h a = volume24h b
  /\ change24h a = change24h b /\ high24h a = high24h b
  /\ low24h a = low24h b.

(** [st'] differs from [st] at most in the lifecycle fields ([initialized],
    the ticker sockets, the monitoring timer), in [klineHistory] and in the
    RSI fields and signal of objects. *)
Definition queryFrame (st st' : Manager) : Prop :=
  spotData st' = spotData st
  /\ futuresData st' = futuresData st
  /\ reconnectTimeouts st' = reconnectTimeouts st
  /\ currentTopSymbols st' = currentTopSymbols st
  /\ klineStreamMap st' = klineStreamMap st
  /\ forall r, sameTicker (deref st' r) (deref st r).

(** The content of the spot snapshot map: each key with the current fields
    of its object. *)
Definition spotContent (st : Manager) : list (string * TradingPair) :=
  map (fun '(key, r) => (key, deref st r)) (spotData st).

(** A caller assigns to the fields of an entry [r] it was handed. *)
Definition writeEntry (st : Manager) (r : ref) (coin : TradingPair) : Manager :=
  withObjects st (<[r := coin]> (objects st)).

(** [a] may stand in front of [b] in a list sorted by descending key. *)
Definition keyDesc {A : Type} (key : A -> Q) (a b : A) : Prop :=
  key b <= key a.

(** The order the specification asks of a snapshot: volume descending,
    symbol ascending among equal volumes. *)
Definition specOrder (a b : TradingPair) : bool :=
  Qlt_bool (volume24h b) (volume24h a)
  || (Qeq_bool (volume24h a) (volume24h b) && String.leb (symbol a) (symbol b)).

(** ** Sample inputs *)

(** Fourteen closed daily candles of one symbol. *)
Definition seededManager : Manager :=
  withKlineHistory newManager
    {[ "BTCUSDT" :=
         {[ "1d" := map (fun c => mkCandle c 0)
                        [17; 18; 19; 20; 21; 22; 23; 24; 25; 26; 27; 28; 29; 30]
         ]} ]}.

Definition fallingCloses : list Q :=
  [30; 29; 28; 27; 26; 25; 24; 23; 22; 21; 20; 19; 18; 17; 16; 15].

Definition mixedCloses : list Q :=
  [1; 2; 3; 2; 5; 6; 4; 8; 9; 10; 11; 9; 13; 14; 15; 12].

(** An initialized manager with two spot entries of equal volume, inserted
    as ETHUSDT then BTCUSDT, both with their RSI values. *)
Definition tieManager : Manager :=
  mkManager (Some (mkWebSocket spotTickerUrl))
    (Some (mkWebSocket futuresTickerUrl))
    [("ETHUSDT", 0%nat); ("BTCUSDT", 1%nat)] []
    {[ 0%nat := mkTradingPair "ETHUSDT" 2000 5 1 2100 1900
                  (Some 50) (Some 50) (Some 50) NEUTRAL;
       1%nat := mkTradingPair "BTCUSDT" 30000 5 1 31000 29000
                  (Some 50) (Some 50) (Some 50) NEUTRAL ]}
    ∅ ∅ true [] [] (Some (mkTimeout 10000 UpdateKlineStreams)).

(** An initialized manager with one spot entry that has no RSI yet. *)
Definition pendingManager : Manager :=
  mkManager (Some (mkWebSocket spotTickerUrl))
    (Some (mkWebSocket futuresTickerUrl))
    [("ETHUSDT", 0%nat)] []
    {[ 0%nat := mkTradingPair "ETHUSDT" 13 5 1 2100 1900
                  None None None NEUTRAL ]}
    ∅ ∅ true [] [] (Some (mkTimeout 10000 UpdateKlineStreams)).

(** An endpoint that answers every request with the same 16 klines, and one
    that always fails. *)
Definition mixedRest (symbol interval : string) : option (list Q) :=
  Some mixedCloses.

Definition noRest (symbol interval : string) : option (list Q) := None.

(** A ticker batch: one tracked pair, one leveraged token, one pair quoted
    in another currency. *)
Definition sampleTickers : list BinanceTickerData :=
  [mkTicker "ETHUPUSDT" 5 990 1 6 4;
   mkTicker "BTCUSDT" 31 900 1 32 30;
   mkTicker "ETHBTC" 1 800 1 2 1].


(** ** A run of the rebalancer *)

(** The sockets that a sequence of effects leaves open: created and not
    closed since. *)
Definition openSockets (effs : list Effect) : list WebSocket :=
  foldl (fun open e =>
           match e with
           | NewWebSocket ws => open ++ [ws]
           | CloseWebSocket ws =>
               List.filter (fun w => negb (String.eqb (url w) (url ws))) open
           | _ => open
           end)
        [] effs.

(** A first spot ticker message: 17 pairs, listed by ascending volume. *)
Definition rankedTickers : list BinanceTickerData :=
  map (fun '(s, q) => mkTicker s 1 q 0 1 1)
    [("ARBUSDT", 10); ("APTUSDT", 20); ("NEARUSDT", 30); ("ATOMUSDT", 40);
     ("UNIUSDT", 50); ("TRXUSDT", 60); ("LTCUSDT", 70); ("DOTUSDT", 80);
     ("LINKUSDT", 90); ("AVAXUSDT", 100); ("ADAUSDT", 110); ("DOGEUSDT", 120);
     ("XRPUSDT", 130); ("SOLUSDT", 140); ("BNBUSDT", 150); ("ETHUSDT", 160);
     ("BTCUSDT", 170)].

(** The run: the first message and a first pass; a message that lifts
    ARBUSDT to the largest volume and a second pass, which closes the first
    candle socket; the ['close'] event of that closed socket (group 0); a
    message that lifts APTUSDT above all others and a third pass. *)
Definition rankedManager : Manager :=
  (processTickers newManager rankedTickers Spot).1.

Definition firstPass : Manager * list Effect :=
  updateKlineStreamsBasedOnVolume rankedManager.

Definition arbMoved : Manager :=
  (processTickers firstPass.1 [mkTicker "ARBUSDT" 1 500 0 1 1] Spot).1.

Definition secondPass : Manager * list Effect :=
  updateKlineStreamsBasedOnVolume arbMoved.

Definition staleClose : Manager * Z := onKlineClose secondPass.1 0.

Definition aptMoved : Manager :=
  (processTickers staleClose.1 [mkTicker "APTUSDT" 1 600 0 1 1] Spot).1.

Definition thirdPass : Manager * list Effect :=
  updateKlineStreamsBasedOnVolume aptMoved.

(** The candle sockets of the three passes. *)
Definition firstSocket : WebSocket :=
  mkWebSocket
    ("wss://stream.binance.com:9443/ws/"
     +:+ "btcusdt@kline_1h/btcusdt@kline_4h/btcusdt@kline_1d/"
     +:+ "ethusdt@kline_1h/ethusdt@kline_4h/ethusdt@kline_1d/"
     +:+ "bnbusdt@kline_1h/bnbusdt@kline_4h/bnbusdt@kline_1d/"
     +:+ "solusdt@kline_1h/solusdt@kline_4h/solusdt@kline_1d/"
     +:+ "xrpusdt@kline_1h/xrpusdt@kline_4h/xrpusdt@kline_1d/"
     +:+ "dogeusdt@kline_1h/dogeusdt@kline_4h/dogeusdt@kline_1d/"
     +:+ "adausdt@kline_1h/adausdt@kline_4h/adausdt@kline_1d/"
     +:+ "avaxusdt@kline_1h/avaxusdt@kline_4h/avaxusdt@kline_1d/"
     +:+ "linkusdt@kline_1h/linkusdt@kline_4h/linkusdt@kline_1d/"
     +:+ "dotusdt@kline_1h/dotusdt@kline_4h/dotusdt@kline_1d").

Definition secondSocket : WebSocket :=
  mkWebSocket
    ("wss://stream.binance.com:9443/ws/"
     +:+ "arbusdt@kline_1h/arbusdt@kline_4h/arbusdt@kline_1d/"
     +:+ "btcusdt@kline_1h/btcusdt@kline_4h/btcusdt@kline_1d/"
     +:+ "ethusdt@kline_1h/ethusdt@kline_4h/ethusdt@kline_1d/"
     +:+ "bnbusdt@kline_1h/bnbusdt@kline_4h/bnbusdt@kline_1d/"
     +:+ "solusdt@kline_1h/solusdt@kline_4h/solusdt@kline_1d/"
     +:+ "xrpusdt@kline_1h/xrpusdt@kline_4h/xrpusdt@kline_1d/"
     +:+ "dogeusdt@kline_1h/dogeusdt@kline_4h/dogeusdt@kline_1d/"
     +:+ "adausdt@kline_1h/adausdt@kline_4h/adausdt@kline_1d/"
     +:+ "avaxusdt@kline_1h/avaxusdt@kline_4h/avaxusdt@kline_1d/"
     +:+ "linkusdt@kline_1h/linkusdt@kline_4h/linkusdt@kline_1d").

Definition thirdSocket : WebSocket :=
  mkWebSocket
    ("wss://stream.binance.com:9443/ws/"
     +:+ "aptusdt@kline_1h/aptusdt@kline_4h/aptusdt@kline_1d/"
     +:+ "arbusdt@kline_1h/arbusdt@kline_4h/arbusdt@kline_1d/"
     +:+ "btcusdt@kline_1h/btcusdt@kline_4h/btcusdt@kline_1d/"
     +:+ "ethusdt@kline_1h/ethusdt@kline_4h/ethusdt@kline_1d/"
     +:+ "bnbusdt@kline_1h/bnbusdt@kline_4h/bnbusdt@kline_1d/"
     +:+ "solusdt@kline_1h/solusdt@kline_4h/solusdt@kline_1d/"
     +:+ "xrpusdt@kline_1h/xrpusdt@kline_4h/xrpusdt@kline_1d/"
     +:+ "dogeusdt@kline_1h/dogeusdt@kline_4h/dogeusdt@kline_1d/"
     +:+ "adausdt@kline_1h/adausdt@kline_4h/adausdt@kline_1d/"
     +:+ "avaxusdt@kline_1h/avaxusdt@kline_4h/avaxusdt@kline_1d").

(** ** Facts about numbers *)

Section NumFacts.

Lemma Qlt_bool_iff (x y : Q) : Qlt_bool x y = true <-> x < y.
Proof.
  unfold Qlt_bool. rewrite negb_true_iff. split.
  - intros H. apply Qnot_le_lt. intros Hle.
    apply Qle_bool_iff in Hle. congruence.
  - intros H. destruct (Qle_bool y x) eqn:E; [|reflexivity].
    apply Qle_bool_iff in E. exfalso. apply (Qlt_not_le _ _ H E).
Qed.

Lemma Qlt_bool_false (x y : Q) : Qlt_bool x y = false <-> y <= x.
Proof.
  unfold Qlt_bool. rewrite negb_false_iff. apply Qle_bool_iff.
Qed.

Lemma Qle_bool_false (x y : Q) : Qle_bool x y = false <-> y < x.
Proof.
  rewrite <- Qlt_bool_iff. unfold Qlt_bool. rewrite negb_true_iff. reflexivity.
Qed.

Lemma Qeq_bool_false (x y : Q) : Qeq_bool x y = false <-> ~ x == y.
Proof.
  split; [apply Qeq_bool_neq|].
  intros H. destruct (Qeq_bool x y) eqn:E; [|reflexivity].
  apply Qeq_bool_iff in E. contradiction.
Qed.

Lemma ndiv_finite (a b : Q) : ~ b == 0 -> ndiv a b = Finite (a / b).
Proof.
  intros H. unfold ndiv. apply Qeq_bool_false in H. rewrite H. reflexivity.
Qed.

Lemma ndiv_zero (a b : Q) : b == 0 -> ndiv a b = NonFinite.
Proof.
  intros H. unfold ndiv. apply Qeq_bool_iff in H. rewrite H. reflexivity.
Qed.

#[global] Instance roundHundredths_proper :
  Proper (Qeq ==> eq) roundHundredths.
Proof.
  intros x y Hxy. unfold roundHundredths. apply Qred_complete.
  assert (Hf : Qfloor (x * 100 + (1 # 2)) = Qfloor (y * 100 + (1 # 2))).
  { apply Qfloor_comp. rewrite Hxy. reflexivity. }
  rewrite Hf. reflexivity.
Qed.

#[global] Instance toFixed2_proper : Proper (Qeq ==> eq) toFixed2.
Proof.
  intros x y Hxy. unfold toFixed2, Qlt_bool.
  rewrite (Qleb_comp 0 0 (Qeq_refl 0) x y Hxy).
  rewrite (roundHundredths_proper x y Hxy).
  rewrite (roundHundredths_proper (- x) (- y)) by (rewrite Hxy; reflexivity).
  reflexivity.
Qed.

Lemma toFixed2_range (x : Q) :
  0 <= x -> x <= 100 -> 0 <= toFixed2 x /\ toFixed2 x <= 100.
Proof.
  intros H0 H100. unfold toFixed2.
  apply Qlt_bool_false in H0 as Hneg. rewrite Hneg.
  unfold roundHundredths. rewrite Qred_correct.
  assert (Hlo : (0 <= Qfloor (x * 100 + (1 # 2)))%Z).
  { change 0%Z with (Qfloor 0). apply Qfloor_resp_le.
    apply Qle_trans with (0 * 100 + (1 # 2)); [discriminate|].
    apply Qplus_le_l. apply Qmult_le_compat_r; [assumption|discriminate]. }
  assert (Hhi : (Qfloor (x * 100 + (1 # 2)) <= 10000)%Z).
  { change 10000%Z with (Qfloor (100 * 100 + (1 # 2))). apply Qfloor_resp_le.
    apply Qplus_le_l. apply Qmult_le_compat_r; [assumption|discriminate]. }
  revert Hlo Hhi. generalize (Qfloor (x * 100 + (1 # 2))). intros n Hlo Hhi.
  unfold Qle; simpl. split; lia.
Qed.

End NumFacts.

(** ** Facts about [wilderRSI] *)

Section WilderFacts.

Lemma Qdiv_nonneg (a b : Q) : 0 <= a -> 0 < b -> 0 <= a / b.
Proof.
  intros Ha Hb. apply Qle_shift_div_l; [assumption|]. lra.
Qed.

Lemma Qdiv_pos (a b : Q) : 0 < a -> 0 < b -> 0 < a / b.
Proof.
  intros Ha Hb. apply Qlt_shift_div_l; [assumption|]. lra.
Qed.

Lemma period_ge_1 (period : nat) :
  (0 < period)%nat -> 1 <= inject_Z (Z.of_nat period).
Proof.
  intros H. change 1 with (inject_Z 1). rewrite <- Zle_Qle. lia.
Qed.

Lemma sumStep_nonneg (sums : Q * Q) (change : Q) :
  0 <= sums.1 -> 0 <= sums.2 ->
  0 <= (sumStep sums change).1 /\ 0 <= (sumStep sums change).2.
Proof.
  destruct sums as [g l]; simpl. intros Hg Hl.
  destruct (Qlt_bool 0 change) eqn:E; simpl.
  - apply Qlt_bool_iff in E. split; lra.
  - apply Qlt_bool_false in E. split; lra.
Qed.

Lemma foldl_sumStep_nonneg (changes : list Q) (sums : Q * Q) :
  0 <= sums.1 -> 0 <= sums.2 ->
  0 <= (foldl sumStep sums changes).1 /\ 0 <= (foldl sumStep sums changes).2.
Proof.
  revert sums. induction changes as [|c cs IH]; intros sums Hg Hl; simpl.
  - auto.
  - destruct (sumStep_nonneg sums c Hg Hl). apply IH; assumption.
Qed.

Lemma smoothStep_nonneg (p g l change : Q) :
  1 <= p -> 0 <= g -> 0 <= l ->
  exists g' l', smoothStep p (g, l) change = Finite (g', l')
                /\ 0 <= g' /\ 0 <= l'.
Proof.
  intros Hp Hg Hl. unfold smoothStep.
  assert (Hp0 : ~ p == 0) by lra.
  rewrite !ndiv_finite by assumption. simpl.
  eexists _, _. split; [reflexivity|].
  assert (Hgp : 0 <= g * (p - 1)) by (apply Qmult_le_0_compat; lra).
  assert (Hlp : 0 <= l * (p - 1)) by (apply Qmult_le_0_compat; lra).
  split; apply Qdiv_nonneg; try lra.
  - destruct (Qlt_bool 0 change) eqn:E; [apply Qlt_bool_iff in E|]; lra.
  - destruct (Qlt_bool change 0) eqn:E; [apply Qlt_bool_iff in E|]; lra.
Qed.

Lemma smooth_nonneg (p : Q) (changes : list Q) (g l : Q) :
  1 <= p -> 0 <= g -> 0 <= l ->
  exists g' l', smooth p changes (g, l) = Finite (g', l')
                /\ 0 <= g' /\ 0 <= l'.
Proof.
  intros Hp. revert g l.
  induction changes as [|c cs IH]; intros g l Hg Hl; cbn [smooth].
  - eauto.
  - destruct (smoothStep_nonneg p g l c Hp Hg Hl) as (g1 & l1 & E & Hg1 & Hl1).
    rewrite E. cbn [bind]. apply IH; assumption.
Qed.

Lemma wilderAverages_nonneg (closes : list Q) (period : nat) :
  (0 < period)%nat ->
  exists g l, wilderAverages closes period = Finite (g, l)
              /\ 0 <= g /\ 0 <= l.
Proof.
  intros Hper. apply period_ge_1 in Hper. unfold wilderAverages.
  pose proof (foldl_sumStep_nonneg (take period (priceChanges closes)) (0, 0))
    as Hs.
  unfold initialSums.
  destruct (foldl sumStep (0, 0) (take period (priceChanges closes)))
    as [gainSum lossSum].
  simpl in Hs. destruct Hs as [Hg Hl]; [lra | lra |].
  assert (Hp0 : ~ inject_Z (Z.of_nat period) == 0) by lra.
  rewrite !ndiv_finite by assumption. simpl.
  apply smooth_nonneg; [assumption| |]; apply Qdiv_nonneg; lra.
Qed.

(** The value computed in the last lines of [wilderRSI] from averages with
    a positive average loss: never outside [0, 100]. *)
Lemma rsi_of_averages (g l : Q) :
  0 <= g -> 0 < l ->
  exists rs q,
    ndiv g l = Finite rs /\ ndiv 100 (1 + rs) = Finite q
    /\ 0 <= rs /\ 0 <= 100 - q /\ 100 - q <= 100.
Proof.
  intros Hg Hl.
  assert (Hrs : 0 <= g / l) by (apply Qdiv_nonneg; assumption).
  assert (Hq : 0 < 100 / (1 + g / l)) by (apply Qdiv_pos; lra).
  assert (Hq' : 100 / (1 + g / l) <= 100).
  { apply Qle_shift_div_r; [lra|]. lra. }
  exists (g / l), (100 / (1 + g / l)).
  rewrite !ndiv_finite by lra. repeat split; lra.
Qed.

Lemma wilderRSI_short (closes : list Q) (period : nat) :
  (length closes < period + 1)%nat -> wilderRSI closes period = Finite None.
Proof.
  intros H. unfold wilderRSI.
  destruct (Nat.ltb_spec (length closes) (period + 1)); [reflexivity | lia].
Qed.

Lemma wilderRSI_enough (closes : list Q) (period : nat) :
  (0 < period)%nat -> (period + 1 <= length closes)%nat ->
  exists v, wilderRSI closes period = Finite (Some v) /\ 0 <= v /\ v <= 100.
Proof.
  intros Hper Hlen. unfold wilderRSI.
  destruct (Nat.ltb_spec (length closes) (period + 1)); [lia|].
  destruct (wilderAverages_nonneg closes period Hper) as (g & l & E & Hg & Hl).
  rewrite E. simpl.
  destruct (Qeq_bool l 0) eqn:El.
  - exists 100. split; [reflexivity|]. split; discriminate.
  - apply Qeq_bool_false in El.
    assert (Hl' : 0 < l) by lra.
    destruct (rsi_of_averages g l Hg Hl') as (rs & q & Ers & Eq & _ & Hlo & Hhi).
    rewrite Ers; simpl. rewrite Eq; simpl.
    destruct (toFixed2_range (100 - q) Hlo Hhi) as [Hr0 Hr100].
    apply Qlt_bool_false in Hr0, Hr100. rewrite Hr0, Hr100. simpl.
    eexists. split; [reflexivity|].
    apply Qlt_bool_false in Hr0, Hr100. split; assumption.
Qed.

End WilderFacts.

(** ** Monotone inputs *)

Section Monotone.

Lemma priceChanges_cons (a b : Q) (rest : list Q) :
  priceChanges (a :: b :: rest) = (b - a) :: priceChanges (b :: rest).
Proof. reflexivity. Qed.

Lemma priceChanges_length (closes : list Q) :
  length (priceChanges closes) = (length closes - 1)%nat.
Proof.
  unfold priceChanges. rewrite length_zip_with.
  destruct closes; simpl; lia.
Qed.

Lemma increasing_changes (closes : list Q) :
  strictlyIncreasing closes = true ->
  Forall (fun c => 0 < c) (priceChanges closes).
Proof.
  induction closes as [|a [|b rest] IH]; intros H.
  - constructor.
  - constructor.
  - rewrite priceChanges_cons. cbn [strictlyIncreasing] in H.
    apply andb_true_iff in H as [Hab Hrest]. apply Qlt_bool_iff in Hab.
    constructor; [lra | apply IH; assumption].
Qed.

Lemma decreasing_changes (closes : list Q) :
  strictlyDecreasing closes = true ->
  Forall (fun c => c < 0) (priceChanges closes).
Proof.
  induction closes as [|a [|b rest] IH]; intros H.
  - constructor.
  - constructor.
  - rewrite priceChanges_cons. cbn [strictlyDecreasing] in H.
    apply andb_true_iff in H as [Hab Hrest]. apply Qlt_bool_iff in Hab.
    constructor; [lra | apply IH; assumption].
Qed.

(** Only gains: the loss sum is never touched. *)
Lemma sums_of_gains (changes : list Q) (g l : Q) :
  Forall (fun c => 0 < c) changes ->
  (foldl sumStep (g, l) changes).2 = l.
Proof.
  intros H. revert g. induction H as [|c cs Hc _ IH]; intros g; simpl.
  - reflexivity.
  - apply Qlt_bool_iff in Hc. rewrite Hc. apply IH.
Qed.

(** Only losses: the gain sum is never touched and the loss sum grows. *)
Lemma sums_of_losses (changes : list Q) (g l : Q) :
  Forall (fun c => c < 0) changes ->
  (foldl sumStep (g, l) changes).1 = g
  /\ l <= (foldl sumStep (g, l) changes).2
  /\ (changes <> [] -> l < (foldl sumStep (g, l) changes).2).
Proof.
  intros H. revert l. induction H as [|c cs Hc _ IH]; intros l; simpl.
  - split; [reflexivity|]. split; [lra | congruence].
  - assert (E : Qlt_bool 0 c = false) by (apply Qlt_bool_false; lra).
    rewrite E. destruct (IH (l - c)) as (H1 & H2 & _).
    split; [assumption|]. split; [lra | intros _; lra].
Qed.

Lemma smooth_gains (p : Q) (changes : list Q) (g l : Q) :
  1 <= p -> Forall (fun c => 0 < c) changes -> l == 0 ->
  exists g' l', smooth p changes (g, l) = Finite (g', l') /\ l' == 0.
Proof.
  intros Hp H. revert g l.
  induction H as [|c cs Hc _ IH]; intros g l Hl; cbn [smooth].
  - eauto.
  - unfold smoothStep. assert (Hp0 : ~ p == 0) by lra.
    rewrite !ndiv_finite by assumption. cbn [bind].
    apply IH.
    assert (E : Qlt_bool c 0 = false) by (apply Qlt_bool_false; lra).
    rewrite E, Hl. unfold Qdiv. ring.
Qed.

Lemma smooth_losses (p : Q) (changes : list Q) (g l : Q) :
  1 <= p -> Forall (fun c => c < 0) changes -> g == 0 -> 0 < l ->
  exists g' l', smooth p changes (g, l) = Finite (g', l')
                /\ g' == 0 /\ 0 < l'.
Proof.
  intros Hp H. revert g l.
  induction H as [|c cs Hc _ IH]; intros g l Hg Hl; cbn [smooth].
  - eauto.
  - unfold smoothStep. assert (Hp0 : ~ p == 0) by lra.
    rewrite !ndiv_finite by assumption. cbn [bind].
    assert (E : Qlt_bool 0 c = false) by (apply Qlt_bool_false; lra).
    assert (E' : Qlt_bool c 0 = true) by (apply Qlt_bool_iff; lra).
    rewrite E, E'. apply IH.
    + rewrite Hg. unfold Qdiv. ring.
    + apply Qdiv_pos; [|lra].
      assert (0 <= l * (p - 1)) by (apply Qmult_le_0_compat; lra). lra.
Qed.

Lemma wilderRSI_increasing (closes : list Q) (period : nat) :
  (0 < period)%nat -> (period + 1 <= length closes)%nat ->
  strictlyIncreasing closes = true ->
  wilderRSI closes period = Finite (Some 100).
Proof.
  intros Hper Hlen Hinc. unfold wilderRSI.
  destruct (Nat.ltb_spec (length closes) (period + 1)); [lia|].
  apply increasing_changes in Hinc.
  apply period_ge_1 in Hper.
  assert (Hp0 : ~ inject_Z (Z.of_nat period) == 0) by lra.
  unfold wilderAverages, initialSums.
  pose proof (sums_of_gains (take period (priceChanges closes)) 0 0
                (Forall_take _ _ _ Hinc)) as Hsum.
  destruct (foldl sumStep (0, 0) (take period (priceChanges closes)))
    as [gainSum lossSum].
  simpl in Hsum. subst lossSum.
  rewrite !ndiv_finite by assumption. cbn [bind].
  destruct (smooth_gains (inject_Z (Z.of_nat period))
              (drop period (priceChanges closes))
              (gainSum / inject_Z (Z.of_nat period))
              (0 / inject_Z (Z.of_nat period)) Hper
              (Forall_drop _ _ _ Hinc)) as (g & l & E & Hl).
  { unfold Qdiv. ring. }
  rewrite E. cbn [bind]. apply Qeq_bool_iff in Hl. rewrite Hl. reflexivity.
Qed.

Lemma wilderRSI_decreasing (closes : list Q) (period : nat) :
  (0 < period)%nat -> (period + 1 <= length closes)%nat ->
  strictlyDecreasing closes = true ->
  wilderRSI closes period = Finite (Some 0).
Proof.
  intros Hper Hlen Hdec. unfold wilderRSI.
  destruct (Nat.ltb_spec (length closes) (period + 1)); [lia|].
  apply decreasing_changes in Hdec.
  assert (Hne : take period (priceChanges closes) <> []).
  { intros E. apply (f_equal length) in E.
    rewrite length_take, priceChanges_length in E. simpl in E. lia. }
  apply period_ge_1 in Hper.
  assert (Hp0 : ~ inject_Z (Z.of_nat period) == 0) by lra.
  unfold wilderAverages, initialSums.
  destruct (sums_of_losses (take period (priceChanges closes)) 0 0
              (Forall_take _ _ _ Hdec)) as (Hg & _ & Hl).
  specialize (Hl Hne).
  destruct (foldl sumStep (0, 0) (take period (priceChanges closes)))
    as [gainSum lossSum].
  simpl in Hg, Hl. subst gainSum.
  rewrite !ndiv_finite by assumption. cbn [bind].
  destruct (smooth_losses (inject_Z (Z.of_nat period))
              (drop period (priceChanges closes))
              (0 / inject_Z (Z.of_nat period))
              (lossSum / inject_Z (Z.of_nat period)) Hper
              (Forall_drop _ _ _ Hdec)) as (g & l & E & Hg & Hl').
  { unfold Qdiv. ring. }
  { apply Qdiv_pos; lra. }
  rewrite E. cbn [bind].
  assert (El : Qeq_bool l 0 = false) by (apply Qeq_bool_false; lra).
  rewrite El.
  assert (Hrs : g / l == 0) by (rewrite Hg; unfold Qdiv; ring).
  rewrite (ndiv_finite g l) by lra. cbn [bind].
  assert (H1 : ~ 1 + g / l == 0) by (rewrite Hrs; discriminate).
  rewrite (ndiv_finite 100 _ H1). cbn [bind].
  assert (Hz : 100 - 100 / (1 + g / l) == 0).
  { rewrite Hrs. reflexivity. }
  rewrite (toFixed2_proper _ _ Hz). reflexivity.
Qed.

End Monotone.

(** ** The oscillator: totality and range *)

(** In exact arithmetic and for a period of at least one: fewer than
    [period + 1] closes give [null]; every input gives a finite result that
    is [null] or a value of [0, 100], so no division has a zero divisor; and
    whenever the average loss is zero the result is exactly 100. *)
Lemma wilderRSI_exact_total (closes : list Q) (period : nat) :
  (0 < period)%nat ->
  ((length closes < period + 1)%nat -> wilderRSI closes period = Finite None)
  /\ (exists r, wilderRSI closes period = Finite r
                /\ (r = None \/ exists v, r = Some v /\ 0 <= v /\ v <= 100))
  /\ (forall avgGain avgLoss,
        (period + 1 <= length closes)%nat ->
        wilderAverages closes period = Finite (avgGain, avgLoss) ->
        avgLoss == 0 ->
        wilderRSI closes period = Finite (Some 100)).
Proof.
  intros Hper. split; [apply wilderRSI_short|]. split.
  - destruct (Nat.lt_ge_cases (length closes) (period + 1)) as [Hlt | Hge].
    + exists None. split; [apply wilderRSI_short; assumption | left; reflexivity].
    + destruct (wilderRSI_enough closes period Hper Hge) as (v & E & Hv).
      exists (Some v). split; [assumption|]. right. exists v. auto.
  - intros g l Hlen E Hl. unfold wilderRSI.
    destruct (Nat.ltb_spec (length closes) (period + 1)); [lia|].
    rewrite E. cbn [bind]. apply Qeq_bool_iff in Hl. rewrite Hl. reflexivity.
Qed.

Section Binary64.
Import PrimFloat.
Local Open Scope float_scope.

(** [toFixed(2)] on binary64 numbers: a tie goes to the larger magnitude,
    NaN stays NaN, and minus zero prints as ["0.00"]. *)
Example toFixed2_samples :
  map Float64.toFixed2 [41.875; 0.125; -0.125; 2.5; -0; nan; infinity]
  = [4188 / 100; 13 / 100; - (13 / 100); 2.5; 0; nan; infinity].
Proof. vm_compute. reflexivity. Qed.

(** Rounding decides the second decimal: on [tieCloses] the quotient falls
    just below the tie 41.875 and the result is 41.87, on the same closes
    times three it is 41.88; exact arithmetic gives 41.88 for both. *)
Example wilderRSI_rounding_tie :
  Float64.wilderRSI Float64.tieCloses 14 = Some (4187 / 100)
  /\ Float64.wilderRSI (map (PrimFloat.mul 3) Float64.tieCloses) 14
     = Some (4188 / 100)
  /\ wilderRSI ([94; 161] ++ replicate 13 68)%Q 14
     = Finite (Some (Qred (4188 # 100)))
  /\ wilderRSI (map (Qmult 3) ([94; 161] ++ replicate 13 68))%Q 14
     = Finite (Some (Qred (4188 # 100))).
Proof. vm_compute. repeat split; reflexivity. Qed.

(** NaN is also what finite closes give when the sums overflow, and what a
    period of zero gives. *)
Example wilderRSI_overflow_and_period_zero :
  Float64.wilderRSI Float64.overflowCloses 14 = Some nan
  /\ Float64.wilderRSI [1; 2] 0 = Some nan.
Proof. vm_compute. split; reflexivity. Qed.

(** C7.  [wilderRSI] is not range-safe.  On fifteen closes of which one is
    NaN (period 14) it returns the number NaN, which is neither [null] nor a
    value of [0, 100]: the average loss is NaN, so the test [avgLoss === 0]
    fails, [toFixed(2)] gives NaN again, and the final test
    [rsi < 0 || rsi > 100] is false for NaN.  The test of [getRSIForSymbol],
    [rsi >= 0 && rsi <= 100], rejects that same result.  Two properties do
    hold in binary64, for every input: fewer than [period + 1] closes give
    [null], and an average loss equal to zero gives exactly 100 without the
    quotient [avgGain / avgLoss]. *)
Theorem wilderRSI_returns_NaN :
  Float64.wilderRSI Float64.corruptCloses 14 = Some nan
  /\ ((nan <? 0) || (100 <? nan) = false)
  /\ ((0 <=? nan) && (nan <=? 100) = false)
  /\ Float64.validRSI (Float64.wilderRSI Float64.corruptCloses 14) = None
  /\ (forall closes period,
        (length closes < period + 1)%nat ->
        Float64.wilderRSI closes period = None)
  /\ (forall closes period,
        (period + 1 <= length closes)%nat ->
        ((Float64.wilderAverages closes period).2 =? 0) = true ->
        Float64.wilderRSI closes period = Some 100).
Proof.
  split; [vm_compute; reflexivity|].
  split; [vm_compute; reflexivity|].
  split; [vm_compute; reflexivity|].
  split; [vm_compute; reflexivity|].
  split.
  - intros closes period H. unfold Float64.wilderRSI.
    destruct (Nat.ltb_spec (length closes) (period + 1)); [reflexivity | lia].
  - intros closes period H E. unfold Float64.wilderRSI.
    destruct (Nat.ltb_spec (length closes) (period + 1)); [lia|].
    destruct (Float64.wilderAverages closes period) as [avgGain avgLoss].
    cbn [snd] in E. rewrite E. reflexivity.
Qed.

End Binary64.

(** With a period of zero the first division already has a zero divisor. *)
Example wilderRSI_period_zero : wilderRSI [1; 2] 0 = NonFinite.
Proof. reflexivity. Qed.

(** C8.  On at least 15 closes, a strictly increasing sequence gives exactly
    100 and a strictly decreasing one exactly 0, a defined value. *)
Theorem wilderRSI_monotone (closes : list Q) :
  (15 <= length closes)%nat ->
  (strictlyIncreasing closes = true -> wilderRSI closes 14 = Finite (Some 100))
  /\ (strictlyDecreasing closes = true -> wilderRSI closes 14 = Finite (Some 0)).
Proof.
  intros Hlen. split; intros H.
  - apply wilderRSI_increasing; [lia | lia | assumption].
  - apply wilderRSI_decreasing; [lia | lia | assumption].
Qed.

Lemma wilderRSI_monotone_witness :
  strictlyDecreasing fallingCloses = true
  /\ wilderRSI fallingCloses 14 = Finite (Some 0).
Proof.
  split; [reflexivity|].
  apply (wilderRSI_monotone fallingCloses); [simpl; lia | reflexivity].
Defined.

(** ** Signal classification *)

Lemma getRSISignal_strong_buy (x : Q) :
  ~ x == 0 -> x <= 20 -> getRSISignal (Some x) = STRONG_BUY.
Proof.
  intros Hx H20. unfold getRSISignal.
  apply Qeq_bool_false in Hx. apply Qle_bool_iff in H20.
  rewrite Hx, H20. reflexivity.
Qed.

(** Away from zero the value is NEUTRAL exactly between 30 and 70. *)
Lemma getRSISignal_neutral_band (x : Q) :
  ~ x == 0 -> (getRSISignal (Some x) = NEUTRAL <-> 30 < x /\ x < 70).
Proof.
  intros Hx. unfold getRSISignal. apply Qeq_bool_false in Hx. rewrite Hx.
  destruct (Qle_bool x 20) eqn:E20.
  { apply Qle_bool_iff in E20. split; [discriminate | intros [? ?]; lra]. }
  destruct (Qle_bool x 30) eqn:E30.
  { apply Qle_bool_iff in E30. split; [discriminate | intros [? ?]; lra]. }
  destruct (Qle_bool 80 x) eqn:E80.
  { apply Qle_bool_iff in E80. split; [discriminate | intros [? ?]; lra]. }
  destruct (Qle_bool 70 x) eqn:E70.
  { apply Qle_bool_iff in E70. split; [discriminate | intros [? ?]; lra]. }
  apply Qle_bool_false in E30, E70. split; [intros _; split; assumption | reflexivity].
Qed.

(** C2.  The oscillator value 0, which [wilderRSI] returns on falling
    closes, is classified like [null]: NEUTRAL, not STRONG_BUY. *)
Theorem getRSISignal_zero_is_neutral :
  wilderRSI fallingCloses 14 = Finite (Some 0)
  /\ getRSISignal (Some 0) = NEUTRAL
  /\ getRSISignal (Some 0) = getRSISignal None
  /\ getRSISignal (Some 0) <> STRONG_BUY.
Proof.
  repeat split; try reflexivity. discriminate.
Qed.

(** C3.  The boundary table holds entry by entry, but the value 0 is
    NEUTRAL although it lies outside the band between 30 and 70. *)
Theorem getRSISignal_boundary_table :
  getRSISignal (Some 20) = STRONG_BUY
  /\ getRSISignal (Some (2001 # 100)) = BUY
  /\ getRSISignal (Some 30) = BUY
  /\ getRSISignal (Some (3001 # 100)) = NEUTRAL
  /\ getRSISignal (Some (6999 # 100)) = NEUTRAL
  /\ getRSISignal (Some 70) = SELL
  /\ getRSISignal (Some (7999 # 100)) = SELL
  /\ getRSISignal (Some 80) = STRONG_SELL
  /\ getRSISignal None = NEUTRAL
  /\ (getRSISignal (Some 0) = NEUTRAL /\ ~ (30 < 0 /\ 0 < 70)).
Proof.
  repeat split; try reflexivity. intros [H _]. discriminate.
Qed.

(** ** Indicator values on the ticker path *)

Section TickerPath.




End TickerPath.



(** ** The candle history store is bounded *)

Section CandleStore.

Lemma sliceLast_length {A} (n : nat) (arr : list A) :
  (length (Js.sliceLast n arr) <= n)%nat.
Proof. unfold Js.sliceLast. rewrite length_drop. lia. Qed.

Lemma sliceLast_short {A} (n : nat) (arr : list A) :
  (length arr <= n)%nat -> Js.sliceLast n arr = arr.
Proof.
  intros H. unfold Js.sliceLast.
  replace (length arr - n)%nat with 0%nat by lia. reflexivity.
Qed.

(** What a closed candle does to every history. *)
Lemma processKlineData_closed (st : Manager) (s i : string) (c : Q) (T : Z)
    (symbol interval : string) :
  history (klineHistory (processKlineData st (mkKline s i c T true)))
          symbol interval =
  if decide (symbol = s /\ interval = i)
  then Js.sliceLast 100 (history (klineHistory st) s i ++ [mkCandle c T])
  else history (klineHistory st) symbol interval.
Proof.
  unfold processKlineData, history. simpl.
  set (bySymbol := default ∅ (klineHistory st !! s)).
  set (pushed := default [] (bySymbol !! i) ++ [mkCandle c T]).
  assert (Hkept : (if (100 <? length pushed)%nat
                   then Js.sliceLast 100 pushed else pushed)
                  = Js.sliceLast 100 pushed).
  { destruct (Nat.ltb_spec 100 (length pushed)); [reflexivity|].
    symmetry. apply sliceLast_short. assumption. }
  rewrite Hkept.
  destruct (decide (symbol = s)) as [-> | Hs].
  - rewrite lookup_insert_eq. simpl.
    destruct (decide (interval = i)) as [-> | Hi].
    + rewrite lookup_insert_eq. simpl.
      rewrite decide_True by auto. reflexivity.
    + rewrite lookup_insert_ne by congruence.
      rewrite decide_False by (intros [_ ?]; congruence). reflexivity.
  - rewrite lookup_insert_ne by congruence.
    rewrite decide_False by (intros [? _]; congruence). reflexivity.
Qed.

Lemma processKlineData_unclosed (st : Manager) (s i : string) (c : Q) (T : Z) :
  processKlineData st (mkKline s i c T false) = st.
Proof. reflexivity. Qed.

(** One message keeps every history within the cap. *)
Lemma processKlineData_cap (st : Manager) (k : BinanceKlineData) :
  (forall symbol interval,
     (length (history (klineHistory st) symbol interval) <= 100)%nat) ->
  forall symbol interval,
    (length (history (klineHistory (processKlineData st k)) symbol interval)
     <= 100)%nat.
Proof.
  intros Hst symbol interval. destruct k as [s i c T [|]].
  - rewrite processKlineData_closed. case_decide.
    + apply sliceLast_length.
    + apply Hst.
  - rewrite processKlineData_unclosed. apply Hst.
Qed.

Lemma processKlineData_run_cap (msgs : list BinanceKlineData) (st : Manager) :
  (forall symbol interval,
     (length (history (klineHistory st) symbol interval) <= 100)%nat) ->
  forall symbol interval,
    (length (history (klineHistory (foldl processKlineData st msgs))
                     symbol interval) <= 100)%nat.
Proof.
  revert st. induction msgs as [|k msgs IH]; intros st Hst; simpl.
  - assumption.
  - apply IH. apply processKlineData_cap. assumption.
Qed.

End CandleStore.

(** C5.  Starting from the empty store, after any sequence of candle
    messages every history holds at most 100 entries; a closed candle is
    appended and the most recent 100 entries are kept, in order; a candle
    that is not closed leaves the whole state as it was. *)
Theorem candle_history_never_exceeds_100 (msgs : list BinanceKlineData)
    (st : Manager) (s i : string) (c : Q) (T : Z) :
  (length (history (klineHistory (foldl processKlineData newManager msgs)) s i)
   <= 100)%nat
  /\ history (klineHistory (processKlineData st (mkKline s i c T true))) s i
     = Js.sliceLast 100 (history (klineHistory st) s i ++ [mkCandle c T])
  /\ processKlineData st (mkKline s i c T false) = st.
Proof.
  split; [|split].
  - apply processKlineData_run_cap. intros symbol interval.
    unfold history. simpl. rewrite lookup_empty. simpl.
    rewrite lookup_empty. simpl. lia.
  - rewrite processKlineData_closed. rewrite decide_True by auto. reflexivity.
  - apply processKlineData_unclosed.
Qed.

(** ** Reconnect delays *)

Section Backoff.

(** The delay depends on the number of keys of [reconnectTimeouts] only. *)
Lemma scheduleReconnect_delay (st : Manager) (type : string)
    (fn : TimerAction) :
  reconnectDelays (scheduleReconnect st type fn).2 =
  [Z.min (initialReconnectDelay * 2 ^ Z.of_nat (size (reconnectTimeouts st)))
         maxReconnectDelay].
Proof. reflexivity. Qed.

(** A further failure of a connection that already has an entry does not
    change the number of keys: the exponent stays where it is. *)
Lemma scheduleReconnect_size_stalls (st : Manager) (type : string)
    (fn : TimerAction) :
  is_Some (reconnectTimeouts st !! type) ->
  size (reconnectTimeouts (scheduleReconnect st type fn).1)
  = size (reconnectTimeouts st).
Proof.
  intros H. simpl. apply map_size_insert_Some. assumption.
Qed.

(** The handlers only ever use the keys of the two ticker connections. *)
Lemma onTickerEvent_keys (st : Manager) (ev : TickerEvent) :
  dom (reconnectTimeouts st) ⊆ ({[ "spot-ticker"; "futures-ticker" ]} : gset string) ->
  dom (reconnectTimeouts (onTickerEvent st ev).1)
    ⊆ ({[ "spot-ticker"; "futures-ticker" ]} : gset string).
Proof.
  intros H. destruct ev; simpl; unfold clearReconnectTimeout;
    try (destruct (reconnectTimeouts st !! _); simpl;
         [rewrite dom_delete_L; apply subseteq_difference_l | ];
         exact H);
    rewrite dom_insert_L; (apply union_least; [|exact H]);
    apply singleton_subseteq_l; rewrite elem_of_union, !elem_of_singleton;
    auto.
Qed.

(** So the exponent is at most 2 and no delay exceeds 4000 ms: the cap
    [maxReconnectDelay] is never reached. *)
Lemma onTickerEvent_delay_bound (st : Manager) (ev : TickerEvent) :
  dom (reconnectTimeouts st) ⊆ ({[ "spot-ticker"; "futures-ticker" ]} : gset string) ->
  Forall (fun d => (d <= 4000)%Z) (reconnectDelays (onTickerEvent st ev).2).
Proof.
  intros H.
  assert (Hsize : (size (reconnectTimeouts st) <= 2)%nat).
  { rewrite <- size_dom. apply subseteq_size in H.
    rewrite size_union, !size_singleton in H; [exact H|].
    apply disjoint_singleton_l. rewrite elem_of_singleton. discriminate. }
  assert (Hdelay : (Z.min (initialReconnectDelay
                           * 2 ^ Z.of_nat (size (reconnectTimeouts st)))
                          maxReconnectDelay <= 4000)%Z).
  { unfold initialReconnectDelay, maxReconnectDelay.
    destruct (size (reconnectTimeouts st)) as [|[|[|n]]]; simpl; lia. }
  destruct ev; simpl; unfold clearReconnectTimeout;
    try (destruct (reconnectTimeouts st !! _); simpl; constructor);
    repeat constructor; exact Hdelay.
Qed.

Lemma onTickerEvents_delay_bound (evs : list TickerEvent) (st : Manager) :
  dom (reconnectTimeouts st) ⊆ ({[ "spot-ticker"; "futures-ticker" ]} : gset string) ->
  Forall (fun d => (d <= 4000)%Z) (reconnectDelays (onTickerEvents st evs).2).
Proof.
  revert st. induction evs as [|ev evs IH]; intros st H; simpl.
  - constructor.
  - pose proof (onTickerEvent_keys st ev H) as Hk.
    pose proof (onTickerEvent_delay_bound st ev H) as Hd.
    destruct (onTickerEvent st ev) as [st1 eff1]. simpl in Hk, Hd.
    specialize (IH st1 Hk).
    destruct (onTickerEvents st1 evs) as [st2 eff2]. simpl in *.
    unfold reconnectDelays in *. rewrite omap_app.
    apply Forall_app. split; assumption.
Qed.

End Backoff.

(** C1.  Three consecutive failures of the spot ticker connection, the
    futures connection being healthy, arm timers of 1000, 2000 and 2000 ms:
    the third delay is not [min(1000 * 2^2, 30000) = 4000].  A pending entry
    of the futures connection doubles the first delay of the spot
    connection, and after a successful open of the spot connection its next
    delay is 2000, not 1000, while the futures entry is pending. *)
Theorem reconnect_delay_counts_pending_timers :
  reconnectDelays
    (onTickerEvents newManager [SpotClose; SpotClose; SpotClose]).2
  = [1000; 2000; 2000]%Z
  /\ Z.min (initialReconnectDelay * 2 ^ 2) maxReconnectDelay = 4000%Z
  /\ reconnectDelays
       (onTickerEvents newManager [FuturesClose; SpotClose]).2
     = [1000; 2000]%Z
  /\ reconnectDelays
       (onTickerEvents newManager
          [FuturesClose; SpotClose; SpotOpen; SpotClose]).2
     = [1000; 2000; 2000]%Z.
Proof. repeat split; vm_compute; reflexivity. Qed.

(** ** One rebalance pass *)

Section Rebalance.

Lemma setAdd_NoDup (set : list string) (x : string) :
  NoDup set -> NoDup (Js.setAdd set x).
Proof.
  intros H. unfold Js.setAdd. case_decide; [assumption|].
  apply NoDup_app. split; [assumption|]. split.
  - intros y Hy Hyx. apply list_elem_of_singleton in Hyx. congruence.
  - apply NoDup_singleton.
Qed.

Lemma setAdd_elem (set : list string) (x y : string) :
  y ∈ Js.setAdd set x <-> y ∈ set \/ y = x.
Proof.
  unfold Js.setAdd. case_decide.
  - split; [auto | intros [? | ->]; assumption].
  - rewrite elem_of_app, list_elem_of_singleton. reflexivity.
Qed.

Lemma foldl_setAdd (items set : list string) :
  NoDup set ->
  NoDup (foldl Js.setAdd set items)
  /\ forall y, y ∈ foldl Js.setAdd set items <-> y ∈ set \/ y ∈ items.
Proof.
  revert set. induction items as [|x items IH]; intros set Hset; simpl.
  - split; [assumption|]. intros y. rewrite elem_of_nil. tauto.
  - destruct (IH (Js.setAdd set x) (setAdd_NoDup set x Hset)) as [Hnd Hel].
    split; [assumption|]. intros y.
    rewrite Hel, setAdd_elem, elem_of_cons. tauto.
Qed.

Lemma newSet_NoDup (items : list string) : NoDup (Js.newSet items).
Proof. apply foldl_setAdd. constructor. Qed.

Lemma newSet_elem (items : list string) (y : string) :
  y ∈ Js.newSet items <-> y ∈ items.
Proof.
  unfold Js.newSet.
  destruct (foldl_setAdd items [] (NoDup_nil_2)) as [_ H].
  rewrite H, elem_of_nil. tauto.
Qed.

(** [setsEqual] decides equality of the two sets. *)
Lemma setsEqual_spec (set1 set2 : list string) :
  NoDup set1 -> NoDup set2 ->
  (setsEqual set1 set2 = true <-> forall x, x ∈ set1 <-> x ∈ set2).
Proof.
  intros H1 H2. unfold setsEqual. split.
  - destruct (Nat.eqb_spec (length set1) (length set2)) as [Hlen|];
      [simpl | discriminate].
    intros Hall. rewrite forallb_forall in Hall.
    assert (Hsub : forall x, x ∈ set1 -> x ∈ set2).
    { intros x Hx. apply list_elem_of_In, Hall in Hx.
      apply bool_decide_eq_true in Hx. assumption. }
    assert (Hperm : set1 ≡ₚ set2).
    { apply submseteq_length_Permutation; [|lia].
      apply NoDup_submseteq; assumption. }
    intros x. rewrite Hperm. reflexivity.
  - intros Heq.
    assert (Hperm : set1 ≡ₚ set2) by (apply NoDup_Permutation; assumption).
    rewrite (Permutation_length Hperm), Nat.eqb_refl. simpl.
    apply forallb_forall. intros x Hx. apply bool_decide_eq_true.
    apply Heq, list_elem_of_In. assumption.
Qed.

Lemma streamGroupsFrom_concat (fuel i : nat) (streams : list string) :
  (length streams - i <= fuel)%nat ->
  concat (streamGroupsFrom fuel i streams) = drop i streams.
Proof.
  revert i. induction fuel as [|fuel IH]; intros i Hfuel; simpl.
  - symmetry. apply drop_ge. lia.
  - destruct (Nat.ltb_spec i (length streams)) as [Hi | Hi].
    + simpl. rewrite IH by lia. unfold Js.sliceFrom.
      rewrite <- (take_drop 30 (drop i streams)) at 2.
      rewrite drop_drop. reflexivity.
    + symmetry. apply drop_ge. lia.
Qed.

Lemma streamGroupsFrom_sizes (fuel i : nat) (streams : list string) :
  Forall (fun g => (0 < length g)%nat /\ (length g <= 30)%nat)
         (streamGroupsFrom fuel i streams).
Proof.
  revert i. induction fuel as [|fuel IH]; intros i; simpl.
  - constructor.
  - destruct (Nat.ltb_spec i (length streams)) as [Hi | Hi]; constructor.
    + unfold Js.sliceFrom. rewrite length_take, length_drop. lia.
    + apply IH.
Qed.

(** The groups partition the list of stream identifiers, in order. *)
Lemma streamGroups_partition (streams : list string) :
  concat (streamGroups streams) = streams
  /\ Forall (fun g => (0 < length g)%nat /\ (length g <= 30)%nat)
            (streamGroups streams).
Proof.
  split.
  - unfold streamGroups. rewrite streamGroupsFrom_concat by lia. reflexivity.
  - apply streamGroupsFrom_sizes.
Qed.

Lemma streamGroups_single (streams : list string) :
  (0 < length streams)%nat -> (length streams <= 30)%nat ->
  streamGroups streams = [streams].
Proof.
  intros Hpos Hle. unfold streamGroups.
  destruct (length streams) as [|n] eqn:E; [lia|]. simpl.
  rewrite E. simpl. unfold Js.sliceFrom. rewrite drop_0, take_ge by lia.
  f_equal. destruct n as [|n]; [reflexivity|]. simpl.
  destruct (Nat.ltb_spec 30 (length streams)); [lia | reflexivity].
Qed.

Lemma allStreams_length (prioritySymbols : list string) :
  length (allStreams prioritySymbols) = (3 * length prioritySymbols)%nat.
Proof.
  unfold allStreams.
  induction prioritySymbols as [|s l IH]; cbn [flat_map]; [reflexivity|].
  rewrite length_app, IH. simpl. lia.
Qed.

Lemma sliceTo_nat {A} (n : nat) (arr : list A) :
  Js.sliceTo (Z.of_nat n) arr = take n arr.
Proof.
  unfold Js.sliceTo. destruct (Z.ltb_spec (Z.of_nat n) 0); [lia|].
  rewrite Nat2Z.id. reflexivity.
Qed.

Lemma topSymbols_length (st : Manager) (data : list (string * ref)) :
  (length (topSymbols st data) <= 15)%nat.
Proof.
  unfold topSymbols. rewrite length_map, sliceTo_nat, length_take.
  unfold targetSymbolCount. lia.
Qed.

End Rebalance.

(** One run of [updateKlineStreamsBasedOnVolume], as far as
    [klineStreamMap] records the candle sockets.  When the union of
    the two top-15 lists has the same elements as [currentTopSymbols],
    nothing is closed or opened and the manager is unchanged.  When it has
    not and is not empty, every socket of [klineStreamMap] is closed,
    [currentTopSymbols] becomes the union, and sockets are opened for the
    streams of its first 10 symbols, three per symbol: the stream list is
    cut into consecutive groups of 1 to 30 identifiers whose concatenation
    is the list itself, one socket per group (at most 30 identifiers, so a
    single group). *)
Lemma rebalance_pass_tracked (st : Manager) :
  NoDup (currentTopSymbols st) ->
  let newTop := newTopSymbols st in
  let prioritySymbols := take 10 newTop in
  let streams := allStreams prioritySymbols in
  let groups := streamGroups streams in
  ((forall x, x ∈ currentTopSymbols st <-> x ∈ newTop) ->
   updateKlineStreamsBasedOnVolume st = (st, []))
  /\ (~ (forall x, x ∈ currentTopSymbols st <-> x ∈ newTop) ->
      newTop <> [] ->
      updateKlineStreamsBasedOnVolume st =
        (withKlineStreamMap
           (withCurrentTopSymbols (withKlineStreamMap st []) newTop)
           (zip (map groupKey (seq 0 (length groups)))
                (map (fun g => mkWebSocket (klineStreamUrl g)) groups)),
         map (fun '(_, ws) => CloseWebSocket ws) (klineStreamMap st)
         ++ map (fun g => NewWebSocket (mkWebSocket (klineStreamUrl g))) groups
         ++ [SetTimeout (mkTimeout 30000
                           (FallbackRSICalculation prioritySymbols))])
      /\ groups = [streams])
  /\ concat groups = streams
  /\ Forall (fun g => (0 < length g)%nat /\ (length g <= 30)%nat) groups
  /\ length streams = (3 * length prioritySymbols)%nat
  /\ (forall x, x ∈ newTop <->
                 x ∈ topSymbols st (spotData st)
                 \/ x ∈ topSymbols st (futuresData st))
  /\ (length (topSymbols st (spotData st)) <= 15)%nat
  /\ (length (topSymbols st (futuresData st)) <= 15)%nat.
Proof.
  intros Hnd newTop prioritySymbols streams groups.
  assert (HndNew : NoDup newTop) by apply newSet_NoDup.
  pose proof (setsEqual_spec _ _ Hnd HndNew) as Hspec. fold newTop in Hspec.
  split; [|split; [|split; [apply streamGroups_partition|split;
    [apply streamGroups_partition | split; [apply allStreams_length|]]]]].
  3: { split; [|split; apply topSymbols_length].
       intros x. unfold newTop, newTopSymbols.
       rewrite newSet_elem, elem_of_app. reflexivity. }
  - intros Heq. unfold updateKlineStreamsBasedOnVolume. fold newTop.
    destruct (length newTop =? 0)%nat; [reflexivity|].
    apply Hspec in Heq. rewrite Heq. reflexivity.
  - intros Hneq Hne.
    assert (Hfalse : setsEqual (currentTopSymbols st) newTop = false).
    { apply not_true_is_false. intros E. apply Hneq, (proj1 Hspec E). }
    assert (Hlen : (length newTop =? 0)%nat = false).
    { apply Nat.eqb_neq. destruct newTop; simpl; [congruence | lia]. }
    assert (Hsingle : groups = [streams]).
    { apply Nat.eqb_neq in Hlen as Hpos.
      apply streamGroups_single; unfold streams;
        rewrite allStreams_length; unfold prioritySymbols;
        rewrite length_take; lia. }
    split; [|assumption].
    unfold updateKlineStreamsBasedOnVolume. fold newTop.
    rewrite Hlen, Hfalse. cbn [negb closeOldKlineStreams].
    unfold connectKlineStreamsForSymbols. rewrite Hlen.
    change (Js.sliceTo 10 newTop) with (take 10 newTop).
    fold prioritySymbols. fold streams. fold groups. rewrite Hsingle.
    reflexivity.
Qed.

Example rebalance_pass_tracked_sample :
  let newTop := newTopSymbols tieManager in
  NoDup (currentTopSymbols tieManager)
  /\ newTop = ["ETHUSDT"; "BTCUSDT"]
  /\ streamGroups (allStreams (take 10 newTop)) = [allStreams (take 10 newTop)].
Proof.
  cbv zeta. split; [constructor|]. split; [reflexivity|].
  destruct (rebalance_pass_tracked tieManager (NoDup_nil_2)) as (_ & H & _).
  apply H.
  - intros Heq. destruct (Heq "ETHUSDT") as [_ Hin].
    assert (Hnew : "ETHUSDT" ∈ newTopSymbols tieManager).
    { apply list_elem_of_In. vm_compute. left. reflexivity. }
    apply Hin in Hnew. inversion Hnew.
  - vm_compute. discriminate.
Defined.

(** C4.  A rebalance pass does not close every open candle socket.  In the
    run of [firstPass], [secondPass] and [thirdPass]: the second pass finds
    the top 15 by volume changed, closes the first socket and opens the
    second one for the streams 1h, 4h and 1d of the first 10 symbols,
    recorded as [group_0].  The ['close'] event of the first socket then
    runs its handler, which deletes [group_0], by now the entry of the
    second socket, and arms a timer of 10000 ms.  At the third pass the set
    has changed again and is not empty, but [klineStreamMap] is empty: the
    pass closes nothing and opens the third socket.  The second socket stays
    open, known to no map. *)
Theorem rebalance_pass_leaves_socket_open :
  firstPass.2
  = [NewWebSocket firstSocket;
     SetTimeout
       (mkTimeout 30000
          (FallbackRSICalculation
             ["BTCUSDT"; "ETHUSDT"; "BNBUSDT"; "SOLUSDT"; "XRPUSDT";
              "DOGEUSDT"; "ADAUSDT"; "AVAXUSDT"; "LINKUSDT"; "DOTUSDT"]))]
  /\ map fst (spotData arbMoved)
     = ["BTCUSDT"; "ETHUSDT"; "BNBUSDT"; "SOLUSDT"; "XRPUSDT"; "DOGEUSDT";
        "ADAUSDT"; "AVAXUSDT"; "LINKUSDT"; "DOTUSDT"; "LTCUSDT"; "TRXUSDT";
        "UNIUSDT"; "ATOMUSDT"; "NEARUSDT"; "APTUSDT"; "ARBUSDT"]
  /\ currentTopSymbols secondPass.1
     = ["ARBUSDT"; "BTCUSDT"; "ETHUSDT"; "BNBUSDT"; "SOLUSDT"; "XRPUSDT";
        "DOGEUSDT"; "ADAUSDT"; "AVAXUSDT"; "LINKUSDT"; "DOTUSDT"; "LTCUSDT";
        "TRXUSDT"; "UNIUSDT"; "ATOMUSDT"]
  /\ secondPass.2
     = [CloseWebSocket firstSocket;
        NewWebSocket secondSocket;
        SetTimeout
          (mkTimeout 30000
             (FallbackRSICalculation
                ["ARBUSDT"; "BTCUSDT"; "ETHUSDT"; "BNBUSDT"; "SOLUSDT";
                 "XRPUSDT"; "DOGEUSDT"; "ADAUSDT"; "AVAXUSDT"; "LINKUSDT"]))]
  /\ klineStreamMap secondPass.1 = [("group_0", secondSocket)]
  /\ klineStreamMap staleClose.1 = []
  /\ staleClose.2 = 10000%Z
  /\ setsEqual (currentTopSymbols aptMoved) (newTopSymbols aptMoved) = false
  /\ newTopSymbols aptMoved
     = ["APTUSDT"; "ARBUSDT"; "BTCUSDT"; "ETHUSDT"; "BNBUSDT"; "SOLUSDT";
        "XRPUSDT"; "DOGEUSDT"; "ADAUSDT"; "AVAXUSDT"; "LINKUSDT"; "DOTUSDT";
        "LTCUSDT"; "TRXUSDT"; "UNIUSDT"]
  /\ thirdPass.2
     = [NewWebSocket thirdSocket;
        SetTimeout
          (mkTimeout 30000
             (FallbackRSICalculation
                ["APTUSDT"; "ARBUSDT"; "BTCUSDT"; "ETHUSDT"; "BNBUSDT";
                 "SOLUSDT"; "XRPUSDT"; "DOGEUSDT"; "ADAUSDT"; "AVAXUSDT"]))]
  /\ klineStreamMap thirdPass.1 = [("group_0", thirdSocket)]
  /\ openSockets (firstPass.2 ++ secondPass.2 ++ thirdPass.2)
     = [secondSocket; thirdSocket].
Proof. vm_compute. repeat split; reflexivity. Qed.

(** ** Sorting by volume *)

Section SortFacts.
Context {A : Type} (key : A -> Q) (cmp : A -> A -> Q).
Hypothesis cmp_key : forall a b, cmp a b = key b - key a.

Lemma sortInsert_perm (a : A) (l : list A) : Js.sortInsert cmp a l ≡ₚ a :: l.
Proof.
  induction l as [|b l IH]; simpl; [reflexivity|].
  destruct (Qlt_bool 0 (cmp a b)); [|reflexivity].
  rewrite IH. apply Permutation_swap.
Qed.

Lemma sort_perm (l : list A) : Js.sort cmp l ≡ₚ l.
Proof.
  induction l as [|a l IH]; simpl; [reflexivity|].
  rewrite sortInsert_perm. rewrite IH. reflexivity.
Qed.

Lemma sortInsert_sorted (a : A) (l : list A) :
  StronglySorted (keyDesc key) l -> StronglySorted (keyDesc key) (Js.sortInsert cmp a l).
Proof.
  induction 1 as [|b l Hl IH Hb]; simpl.
  - repeat constructor.
  - destruct (Qlt_bool 0 (cmp a b)) eqn:E.
    + apply Qlt_bool_iff in E. rewrite cmp_key in E.
      constructor; [assumption|].
      rewrite sortInsert_perm. constructor; [|assumption].
      unfold keyDesc. lra.
    + apply Qlt_bool_false in E. rewrite cmp_key in E.
      constructor; [constructor; assumption|].
      constructor; [unfold keyDesc; lra|].
      eapply Forall_impl; [exact Hb|]. unfold keyDesc. intros c Hc. lra.
Qed.

Lemma sort_sorted (l : list A) : StronglySorted (keyDesc key) (Js.sort cmp l).
Proof.
  induction l as [|a l IH]; simpl; [constructor|].
  apply sortInsert_sorted. assumption.
Qed.

(** Entries of equal key keep the order they had in the input. *)
Lemma sortInsert_stable (v : Q) (a : A) (l : list A) :
  List.filter (fun x => Qeq_bool (key x) v) (Js.sortInsert cmp a l)
  = List.filter (fun x => Qeq_bool (key x) v) (a :: l).
Proof.
  induction l as [|b l IH]; [reflexivity|]. cbn [Js.sortInsert].
  destruct (Qlt_bool 0 (cmp a b)) eqn:E; [|reflexivity].
  apply Qlt_bool_iff in E. rewrite cmp_key in E.
  cbn [List.filter] in *. rewrite IH.
  destruct (Qeq_bool (key a) v) eqn:Ea; [|reflexivity].
  destruct (Qeq_bool (key b) v) eqn:Eb; [|reflexivity].
  apply Qeq_bool_iff in Ea, Eb. lra.
Qed.

Lemma sort_stable (v : Q) (l : list A) :
  List.filter (fun x => Qeq_bool (key x) v) (Js.sort cmp l)
  = List.filter (fun x => Qeq_bool (key x) v) l.
Proof.
  induction l as [|a l IH]; [reflexivity|]. cbn [Js.sort foldr].
  rewrite sortInsert_stable. cbn [List.filter].
  unfold Js.sort in IH. rewrite IH. reflexivity.
Qed.

Lemma take_sorted (n : nat) (l : list A) :
  StronglySorted (keyDesc key) l -> StronglySorted (keyDesc key) (take n l).
Proof.
  intros H. revert n. induction H as [|a l Hl IH Ha]; intros [|n]; simpl;
    try constructor.
  - apply IH.
  - apply Forall_take. assumption.
Qed.

Lemma filter_take_prefix (f : A -> bool) (n : nat) (l : list A) :
  List.filter f (take n l) `prefix_of` List.filter f l.
Proof.
  revert n. induction l as [|a l IH]; intros [|n]; simpl;
    try apply prefix_nil.
  destruct (f a); [apply prefix_cons|]; apply IH.
Qed.

End SortFacts.

(** ** Queries: frame *)

Section QueryFrame.
Variable rest : string -> string -> option (list Q).
Variable now : Z.

Lemma sameTicker_refl (a : TradingPair) : sameTicker a a.
Proof. repeat split. Qed.

Lemma sameTicker_trans (a b c : TradingPair) :
  sameTicker a b -> sameTicker b c -> sameTicker a c.
Proof.
  unfold sameTicker. intros (?&?&?&?&?&?) (?&?&?&?&?&?).
  repeat split; congruence.
Qed.

Lemma queryFrame_refl (st : Manager) : queryFrame st st.
Proof. repeat split. Qed.

Lemma queryFrame_trans (st1 st2 st3 : Manager) :
  queryFrame st1 st2 -> queryFrame st2 st3 -> queryFrame st1 st3.
Proof.
  unfold queryFrame. intros (?&?&?&?&?&H12) (?&?&?&?&?&H23).
  repeat split; try congruence; apply (sameTicker_trans _ _ _ (H23 r) (H12 r)).
Qed.

Lemma initialize_frame (st : Manager) :
  queryFrame st (initialize st).1
  /\ objects (initialize st).1 = objects st
  /\ klineHistory (initialize st).1 = klineHistory st.
Proof.
  unfold initialize. destruct (initialized st); repeat split.
Qed.

Lemma withKlineHistory_id (st : Manager) :
  withKlineHistory st (klineHistory st) = st.
Proof. destruct st; reflexivity. Qed.

Lemma restInterval_shape (st : Manager) (symbol interval : string) :
  exists h, restInterval rest now st symbol interval = withKlineHistory st h.
Proof.
  unfold restInterval.
  destruct (rest symbol interval) as [closes|];
    [|exists (klineHistory st); symmetry; apply withKlineHistory_id].
  destruct (15 <=? length closes)%nat;
    [|exists (klineHistory st); symmetry; apply withKlineHistory_id].
  destruct (validRSI (wilderRSI closes 14));
    [|exists (klineHistory st); symmetry; apply withKlineHistory_id].
  eexists. reflexivity.
Qed.

Lemma calculateRSIViaREST_shape (st : Manager) (symbol : string) :
  exists h, calculateRSIViaREST rest now st symbol = withKlineHistory st h.
Proof.
  unfold calculateRSIViaREST. generalize intervals. intros l. revert st.
  induction l as [|i l IH]; intros st; simpl.
  - exists (klineHistory st). symmetry. apply withKlineHistory_id.
  - destruct (restInterval_shape st symbol i) as [h1 E1]. rewrite E1.
    destruct (IH (withKlineHistory st h1)) as [h2 E2]. rewrite E2.
    exists h2. reflexivity.
Qed.

Lemma ensureRSIForCoin_frame (st : Manager) (r : ref) :
  queryFrame st (ensureRSIForCoin rest now st r).
Proof.
  unfold ensureRSIForCoin.
  destruct (calculateRSIViaREST_shape st (symbol (deref st r))) as [h E].
  rewrite E. repeat split; unfold deref; simpl;
    (destruct (decide (r0 = r)) as [-> | Hne];
     [rewrite lookup_total_insert_eq | rewrite lookup_total_insert_ne by congruence]);
    reflexivity.
Qed.

Lemma ensureRSIForCoins_frame (st : Manager) (coins : list ref) :
  queryFrame st (ensureRSIForCoins rest now st coins).
Proof.
  assert (Hfold : forall l st0,
            queryFrame st0 (foldl (ensureRSIForCoin rest now) st0 l)).
  { induction l as [|r l IH]; intros st0; simpl.
    - apply queryFrame_refl.
    - eapply queryFrame_trans; [apply ensureRSIForCoin_frame | apply IH]. }
  unfold ensureRSIForCoins.
  destruct (length _ =? 0)%nat; [apply queryFrame_refl | apply Hfold].
Qed.

(** No returned entry lacks an RSI value: nothing is recomputed. *)
Lemma ensureRSIForCoins_nothing (st : Manager) (coins : list ref) :
  Forall (fun r => needsRSI (deref st r) = false) coins ->
  ensureRSIForCoins rest now st coins = st.
Proof.
  intros H. unfold ensureRSIForCoins.
  assert (E : filter (fun r => needsRSI (deref st r) = true) coins = []).
  { induction H as [|r l Hr _ IH]; [reflexivity|].
    rewrite filter_cons, decide_False by congruence. assumption. }
  rewrite E. reflexivity.
Qed.

End QueryFrame.

(** ** Queries: what is returned *)

Section QueryResult.
Variable rest : string -> string -> option (list Q).
Variable now : Z.

Lemma StronglySorted_weaken {A} (R R' : A -> A -> Prop) (l : list A) :
  (forall a b, R a b -> R' a b) -> StronglySorted R l -> StronglySorted R' l.
Proof.
  intros HR. induction 1 as [|a l Hl IH Ha]; constructor; [assumption|].
  eapply Forall_impl; [exact Ha | auto].
Qed.

Lemma sliceTo_nonneg {A} (limit : Z) (arr : list A) :
  (0 <= limit)%Z -> Js.sliceTo limit arr = take (Z.to_nat limit) arr.
Proof.
  intros H. unfold Js.sliceTo. destruct (Z.ltb_spec limit 0); [lia|reflexivity].
Qed.

Lemma sliceTo_elem {A} (limit : Z) (arr : list A) (x : A) :
  x ∈ Js.sliceTo limit arr -> x ∈ arr.
Proof.
  unfold Js.sliceTo. destruct (limit <? 0)%Z; apply (subseteq_take _ arr).
Qed.

(** The array returned and the manager before [ensureRSIForCoins] runs. *)
Lemma getData_unfold (data : Manager -> list (string * ref)) (st : Manager)
    (limit : Z) :
  data = spotData \/ data = futuresData ->
  let sortedData :=
    Js.sliceTo limit (Js.sort (byVolumeDesc st) (Js.mapValues (data st))) in
  let st0 := if initialized st then st else (initialize st).1 in
  getData rest now data st limit =
    (sortedData, ensureRSIForCoins rest now st0 sortedData,
     if initialized st then [] else (initialize st).2)
  /\ objects st0 = objects st.
Proof.
  intros Hdata. unfold getData, initialize.
  destruct (initialized st) eqn:E; simpl;
    destruct Hdata as [-> | ->]; split; reflexivity.
Qed.

Lemma getData_queryFrame (data : Manager -> list (string * ref))
    (st : Manager) (limit : Z) :
  data = spotData \/ data = futuresData ->
  queryFrame st (getData rest now data st limit).1.2.
Proof.
  intros Hdata. destruct (getData_unfold data st limit Hdata) as [E _].
  rewrite E. simpl.
  eapply queryFrame_trans; [|apply ensureRSIForCoins_frame].
  destruct (initialized st); [apply queryFrame_refl | apply initialize_frame].
Qed.

End QueryResult.

(** C6, as the code has it.  For either segment and every limit that is
    not negative, the array returned by the snapshot query is sorted by
    24h volume descending, its entries of any one volume stand in the order
    in which the snapshot map holds them (insertion order, not symbol
    order), and it has at most [limit] entries. *)
Theorem getData_sorted_stable_limited
    (rest : string -> string -> option (list Q)) (now : Z)
    (data : Manager -> list (string * ref)) (st : Manager) (limit : Z) :
  data = spotData \/ data = futuresData ->
  (0 <= limit)%Z ->
  let result := (getData rest now data st limit).1.1 in
  let st' := (getData rest now data st limit).1.2 in
  let volume := fun r => volume24h (deref st' r) in
  StronglySorted (fun a b => volume b <= volume a) result
  /\ (forall v,
        List.filter (fun r => Qeq_bool (volume r) v) result
        `prefix_of`
        List.filter (fun r => Qeq_bool (volume r) v) (Js.mapValues (data st')))
  /\ (Z.of_nat (length result) <= limit)%Z.
Proof.
  intros Hdata Hlimit result st' volume.
  pose proof (getData_queryFrame rest now data st limit Hdata) as Hframe.
  fold st' in Hframe.
  destruct Hframe as (Hspot & Hfut & _ & _ & _ & Hobj).
  assert (Hvol : forall r, volume r = volume24h (deref st r)).
  { intros r. apply (Hobj r). }
  assert (Hdata' : data st' = data st).
  { destruct Hdata as [-> | ->]; assumption. }
  destruct (getData_unfold rest now data st limit Hdata) as [E _].
  assert (Hres : result = take (Z.to_nat limit)
            (Js.sort (byVolumeDesc st) (Js.mapValues (data st)))).
  { unfold result. rewrite E. simpl. apply sliceTo_nonneg. assumption. }
  set (key := fun r => volume24h (deref st r)).
  assert (Hcmp : forall a b, byVolumeDesc st a b = key b - key a)
    by reflexivity.
  rewrite Hres, Hdata'. split; [|split].
  - apply (StronglySorted_weaken (keyDesc key)).
    + intros a b. unfold keyDesc, key. rewrite !Hvol. auto.
    + apply take_sorted, (sort_sorted key _ Hcmp).
  - intros v.
    assert (Hext : forall r, Qeq_bool (volume r) v = Qeq_bool (key r) v)
      by (intros r; rewrite Hvol; reflexivity).
    rewrite !(List.filter_ext _ _ Hext).
    rewrite <- (sort_stable key _ Hcmp v (Js.mapValues (data st))).
    apply filter_take_prefix.
  - rewrite length_take. lia.
Qed.

Lemma getData_sorted_stable_limited_witness :
  (0 <= 1)%Z
  /\ (Z.of_nat (length (getSpotData noRest 0 tieManager 1).1.1) <= 1)%Z.
Proof.
  split; [lia|].
  apply (getData_sorted_stable_limited noRest 0 spotData tieManager 1);
    [left; reflexivity | lia].
Defined.

(** C6, as the specification has it, fails: two entries of equal volume
    come back in insertion order, ETHUSDT before BTCUSDT, and a negative
    limit returns more entries than the limit. *)
Lemma getSpotData_ties_keep_insertion_order :
  let result := (getSpotData noRest 0 tieManager 50).1.1 in
  let st' := (getSpotData noRest 0 tieManager 50).1.2 in
  map (fun r => symbol (deref st' r)) result = ["ETHUSDT"; "BTCUSDT"]
  /\ map (fun r => volume24h (deref st' r)) result = [5; 5]
  /\ ~ Sorted (fun a b => specOrder (deref st' a) (deref st' b) = true) result
  /\ ~ (Z.of_nat (length (getSpotData noRest 0 tieManager (-1)).1.1) <= -1)%Z.
Proof.
  split; [reflexivity|]. split; [reflexivity|]. split.
  - intros H. change (getSpotData noRest 0 tieManager 50).1.1
      with [0%nat; 1%nat] in H.
    inversion H as [|a l _ Hhd]; subst. inversion Hhd as [|b l' Hab]; subst.
    vm_compute in Hab. discriminate.
  - vm_compute. intros H. apply H. reflexivity.
Qed.

(** C9, as the code has it.  A query by either segment changes nothing
    outside the lifecycle fields, [klineHistory] and the RSI fields and
    signal of objects; the references it returns are references held by the
    snapshot map, not copies; and on an initialized manager whose returned
    entries all have their three RSI values it changes nothing at all and
    has no effect. *)
Theorem getData_frame
    (rest : string -> string -> option (list Q)) (now : Z)
    (data : Manager -> list (string * ref)) (st : Manager) (limit : Z) :
  data = spotData \/ data = futuresData ->
  let result := (getData rest now data st limit).1.1 in
  let st' := (getData rest now data st limit).1.2 in
  let effs := (getData rest now data st limit).2 in
  queryFrame st st'
  /\ (forall r, r ∈ result -> r ∈ Js.mapValues (data st'))
  /\ (initialized st = true ->
      Forall (fun r => needsRSI (deref st r) = false) result ->
      st' = st /\ effs = []).
Proof.
  intros Hdata result st' effs.
  pose proof (getData_queryFrame rest now data st limit Hdata) as Hframe.
  fold st' in Hframe. split; [assumption|].
  destruct (getData_unfold rest now data st limit Hdata) as [E _].
  split.
  - intros r Hr.
    assert (Hdata' : data st' = data st).
    { destruct Hframe as (? & ? & _). destruct Hdata as [-> | ->]; assumption. }
    rewrite Hdata'. unfold result in Hr. rewrite E in Hr. simpl in Hr.
    apply sliceTo_elem in Hr.
    rewrite (sort_perm (byVolumeDesc st)) in Hr. assumption.
  - intros Hinit Hall. unfold st', effs, result in *. rewrite E in *.
    simpl in *. rewrite Hinit in *. split; [|reflexivity].
    apply ensureRSIForCoins_nothing. assumption.
Qed.

Lemma getData_frame_witness :
  let q := getSpotData noRest 0 tieManager 50 in
  initialized tieManager = true
  /\ Forall (fun r => needsRSI (deref tieManager r) = false) q.1.1
  /\ q.1.2 = tieManager /\ q.2 = [].
Proof.
  assert (Hall : Forall (fun r => needsRSI (deref tieManager r) = false)
                        (getSpotData noRest 0 tieManager 50).1.1).
  { repeat constructor. }
  split; [reflexivity|]. split; [exact Hall|].
  apply (getData_frame noRest 0 spotData tieManager 50);
    [left; reflexivity | reflexivity | exact Hall].
Defined.

(** C9, as the specification has it, fails.  A query on a manager that was
    never initialized initializes it; a query on [pendingManager] seeds [klineHistory] from the endpoint and rewrites
    the RSI fields of the object held by the snapshot map; and the entry
    returned is that very object, so a write through it shows in the map. *)
Lemma getSpotData_writes_the_stores :
  let fresh := getSpotData noRest 0 newManager 50 in
  let q := getSpotData mixedRest 0 pendingManager 50 in
  (initialized newManager = false /\ initialized fresh.1.2 = true
   /\ fresh.2 <> [])
  /\ q.1.2 <> pendingManager
  /\ (klineHistory pendingManager = ∅
      /\ length (history (klineHistory q.1.2) "ETHUSDT" "1d") = 16%nat)
  /\ spotContent q.1.2 <> spotContent pendingManager
  /\ (q.1.1 = [0%nat]
      /\ spotData q.1.2 = [("ETHUSDT", 0%nat)]
      /\ spotContent (writeEntry q.1.2 0%nat (deref tieManager 1%nat))
         <> spotContent q.1.2).
Proof.
  cbv zeta. split; [|split; [|split; [|split; [|split; [|split]]]]].
  - split; [reflexivity|]. split; [reflexivity|]. discriminate.
  - intros E. apply (f_equal (fun st => rsi1d (deref st 0%nat))) in E.
    vm_compute in E. discriminate.
  - split; reflexivity.
  - intros E. vm_compute in E. discriminate.
  - reflexivity.
  - reflexivity.
  - intros E. vm_compute in E. discriminate.
Qed.

(** * Further properties of the code *)

(** ** The oscillator without losses *)

Section NoLoss.

Lemma nonDecreasing_changes (closes : list Q) :
  nonDecreasing closes = true ->
  Forall (fun c => 0 <= c) (priceChanges closes).
Proof.
  induction closes as [|a [|b rest] IH]; intros H.
  - constructor.
  - constructor.
  - rewrite priceChanges_cons. cbn [nonDecreasing] in H.
    apply andb_true_iff in H as [Hab Hrest]. apply Qle_bool_iff in Hab.
    constructor; [lra | apply IH; assumption].
Qed.

Lemma sums_without_loss (changes : list Q) (g l : Q) :
  Forall (fun c => 0 <= c) changes -> l == 0 ->
  (foldl sumStep (g, l) changes).2 == 0.
Proof.
  intros H. revert g l. induction H as [|c cs Hc _ IH]; intros g l Hl; simpl.
  - assumption.
  - destruct (Qlt_bool 0 c) eqn:E; apply IH; [assumption|].
    apply Qlt_bool_false in E. lra.
Qed.

Lemma smooth_without_loss (p : Q) (changes : list Q) (g l : Q) :
  1 <= p -> Forall (fun c => 0 <= c) changes -> l == 0 ->
  exists g' l', smooth p changes (g, l) = Finite (g', l') /\ l' == 0.
Proof.
  intros Hp H. revert g l.
  induction H as [|c cs Hc _ IH]; intros g l Hl; cbn [smooth].
  - eauto.
  - unfold smoothStep. assert (Hp0 : ~ p == 0) by lra.
    rewrite !ndiv_finite by assumption. cbn [bind].
    apply IH.
    assert (E : Qlt_bool c 0 = false) by (apply Qlt_bool_false; lra).
    rewrite E, Hl. unfold Qdiv. ring.
Qed.

End NoLoss.

(** X2.  With a period of at least one and enough closes, a sequence
    that never falls, a constant one included, gives exactly 100, and so
    the signal STRONG_SELL. *)
Theorem wilderRSI_without_loss_is_100 (closes : list Q) (period : nat) :
  (0 < period)%nat -> (period + 1 <= length closes)%nat ->
  nonDecreasing closes = true ->
  wilderRSI closes period = Finite (Some 100)
  /\ getRSISignal (Some 100) = STRONG_SELL.
Proof.
  intros Hper Hlen Hmono. split; [|reflexivity]. unfold wilderRSI.
  destruct (Nat.ltb_spec (length closes) (period + 1)); [lia|].
  apply nonDecreasing_changes in Hmono.
  apply period_ge_1 in Hper.
  assert (Hp0 : ~ inject_Z (Z.of_nat period) == 0) by lra.
  unfold wilderAverages, initialSums.
  pose proof (sums_without_loss (take period (priceChanges closes)) 0 0
                (Forall_take _ _ _ Hmono) (Qeq_refl 0)) as Hsum.
  destruct (foldl sumStep (0, 0) (take period (priceChanges closes)))
    as [gainSum lossSum].
  simpl in Hsum.
  rewrite !ndiv_finite by assumption. cbn [bind].
  destruct (smooth_without_loss (inject_Z (Z.of_nat period))
              (drop period (priceChanges closes))
              (gainSum / inject_Z (Z.of_nat period))
              (lossSum / inject_Z (Z.of_nat period)) Hper
              (Forall_drop _ _ _ Hmono)) as (g & l & E & Hl).
  { rewrite Hsum. unfold Qdiv. ring. }
  rewrite E. cbn [bind]. apply Qeq_bool_iff in Hl. rewrite Hl. reflexivity.
Qed.

Lemma wilderRSI_without_loss_is_100_witness :
  nonDecreasing flatCloses = true
  /\ wilderRSI flatCloses 14 = Finite (Some 100).
Proof.
  split; [reflexivity|].
  apply (wilderRSI_without_loss_is_100 flatCloses 14);
    [lia | simpl; lia | reflexivity].
Defined.

(** ** The candle store: what a message touches *)

Section CandleFrame.

Lemma sliceLast_app {A} (n : nat) (a b : list A) :
  Js.sliceLast n (Js.sliceLast n a ++ b) = Js.sliceLast n (a ++ b).
Proof.
  unfold Js.sliceLast. rewrite !length_app, length_drop.
  destruct (Nat.le_gt_cases (length a) n) as [Hle | Hgt].
  - replace (length a - n)%nat with 0%nat by lia. rewrite drop_0.
    f_equal. lia.
  - replace (length a - (length a - n) + length b - n)%nat
      with (length b)%nat by lia.
    replace (length a + length b - n)%nat
      with ((length a - n) + length b)%nat by lia.
    rewrite <- drop_drop. rewrite (drop_app_le a b) by lia. reflexivity.
Qed.

(** A run of messages seen from one symbol and interval. *)
Lemma processKlineData_run_history (msgs : list BinanceKlineData)
    (st : Manager) (symbol interval : string) :
  (length (history (klineHistory st) symbol interval) <= 100)%nat ->
  history (klineHistory (foldl processKlineData st msgs)) symbol interval
  = Js.sliceLast 100 (history (klineHistory st) symbol interval
                      ++ closedCandles symbol interval msgs).
Proof.
  revert st. induction msgs as [|k msgs IH]; intros st Hlen.
  - unfold closedCandles. simpl. rewrite app_nil_r.
    symmetry. apply sliceLast_short. assumption.
  - cbn [foldl]. rewrite IH.
    2:{ destruct k as [s i c T [|]].
        - rewrite processKlineData_closed. case_decide;
            [apply sliceLast_length | assumption].
        - rewrite processKlineData_unclosed. assumption. }
    destruct k as [s i c T [|]].
    + rewrite processKlineData_closed. unfold closedCandles.
      cbn [List.filter kd_x kd_s kd_i andb].
      destruct (decide (symbol = s /\ interval = i)) as [[-> ->] | Hne].
      * rewrite !bool_decide_eq_true_2 by reflexivity. cbn [andb map kd_c kd_T].
        rewrite sliceLast_app, <- app_assoc. reflexivity.
      * assert (E : bool_decide (s = symbol) && bool_decide (i = interval)
                    = false).
        { apply andb_false_iff.
          destruct (decide (s = symbol)) as [-> | Hs];
            [right | left]; apply bool_decide_eq_false; [|congruence].
          intros ->. apply Hne. auto. }
        rewrite E. reflexivity.
    + rewrite processKlineData_unclosed. reflexivity.
Qed.

End CandleFrame.

(** X4.  From the empty store, after any sequence of candle messages the
    history of a symbol and interval is the last 100 closed candles received
    for that symbol and interval, in arrival order; open candles and candles
    of other streams leave no trace in it. *)
Theorem history_is_last_100_closed (msgs : list BinanceKlineData)
    (symbol interval : string) :
  history (klineHistory (foldl processKlineData newManager msgs))
          symbol interval
  = Js.sliceLast 100 (closedCandles symbol interval msgs).
Proof.
  rewrite processKlineData_run_history.
  - reflexivity.
  - unfold history. simpl. rewrite lookup_empty. simpl.
    rewrite lookup_empty. simpl. lia.
Qed.

(** X5.  A candle message changes no field of the manager other than
    [klineHistory], and in it no history other than that of its own symbol
    and interval. *)
Theorem processKlineData_touches_one_history (st : Manager)
    (k : BinanceKlineData) (symbol interval : string) :
  symbol <> kd_s k \/ interval <> kd_i k ->
  history (klineHistory (processKlineData st k)) symbol interval
  = history (klineHistory st) symbol interval
  /\ processKlineData st k
     = withKlineHistory st (klineHistory (processKlineData st k)).
Proof.
  intros Hne. destruct k as [s i c T [|]]; simpl in Hne.
  - split.
    + rewrite processKlineData_closed.
      rewrite decide_False by (intros [? ?]; destruct Hne; congruence).
      reflexivity.
    + reflexivity.
  - rewrite processKlineData_unclosed. split; [reflexivity|].
    symmetry. apply withKlineHistory_id.
Qed.

Lemma processKlineData_touches_one_history_witness :
  ("BTCUSDT" <> "ETHUSDT" \/ "1d" <> "1d")
  /\ history (klineHistory
                (processKlineData seededManager
                   (mkKline "ETHUSDT" "1d" 5 7 true))) "BTCUSDT" "1d"
     = history (klineHistory seededManager) "BTCUSDT" "1d".
Proof.
  assert (H : "BTCUSDT" <> "ETHUSDT" \/ "1d" <> "1d") by (left; discriminate).
  split; [exact H|].
  apply (processKlineData_touches_one_history seededManager
           (mkKline "ETHUSDT" "1d" 5 7 true) "BTCUSDT" "1d" H).
Defined.

(** ** Seeding from the endpoint *)

Section Seeding.
Variable rest : string -> string -> option (list Q).
Variable now : Z.





End Seeding.


(** ** The fallback pass *)

Section FallbackFacts.
Variable rest : string -> string -> option (list Q).
Variable now : Z.

Lemma restInterval_other_symbol (st : Manager) (symbol interval s : string) :
  s <> symbol ->
  klineHistory (restInterval rest now st symbol interval) !! s
  = klineHistory st !! s.
Proof.
  intros Hne. unfold restInterval.
  destruct (rest symbol interval) as [closes|]; [|reflexivity].
  destruct (15 <=? length closes)%nat; [|reflexivity].
  destruct (validRSI (wilderRSI closes 14)); [|reflexivity].
  simpl. apply lookup_insert_ne. congruence.
Qed.

Lemma calculateRSIViaREST_other_symbol (st : Manager) (symbol s : string) :
  s <> symbol ->
  klineHistory (calculateRSIViaREST rest now st symbol) !! s
  = klineHistory st !! s.
Proof.
  intros Hne. unfold calculateRSIViaREST, intervals. cbn [foldl].
  rewrite !restInterval_other_symbol by assumption. reflexivity.
Qed.

End FallbackFacts.

(** X7.  [fallbackRSICalculation] never touches a symbol that already has a
    history for at least one interval: its other intervals are not fetched
    either. *)
Theorem fallbackRSICalculation_skips_known_symbols
    (rest : string -> string -> option (list Q)) (now : Z)
    (symbols : list string) (st : Manager) (s : string) :
  lacksHistory st s = false ->
  klineHistory (fallbackRSICalculation rest now st symbols) !! s
  = klineHistory st !! s.
Proof.
  revert st. induction symbols as [|x symbols IH]; intros st Hs;
    [reflexivity|].
  unfold fallbackRSICalculation in *. cbn [foldl].
  destruct (lacksHistory st x) eqn:Ex.
  - assert (Hne : s <> x) by (intros ->; congruence).
    pose proof (calculateRSIViaREST_other_symbol rest now st x s Hne) as Hk.
    rewrite IH; [exact Hk|].
    unfold lacksHistory in *. rewrite Hk. exact Hs.
  - apply IH. exact Hs.
Qed.

Lemma fallbackRSICalculation_skips_known_symbols_witness :
  lacksHistory seededManager "BTCUSDT" = false
  /\ klineHistory (fallbackRSICalculation mixedRest 0 seededManager
                     ["ETHUSDT"; "BTCUSDT"]) !! "BTCUSDT"
     = klineHistory seededManager !! "BTCUSDT".
Proof.
  split; [reflexivity|].
  apply (fallbackRSICalculation_skips_known_symbols mixedRest 0
           ["ETHUSDT"; "BTCUSDT"] seededManager "BTCUSDT").
  reflexivity.
Defined.

(** ** Ticker ingestion *)

Section MapFacts.
Context {V : Type}.

Lemma mapGet_mapSet (key key' : string) (v : V) (m : list (string * V)) :
  JsText.mapGet key' (Js.mapSet key v m)
  = if decide (key' = key) then Some v else JsText.mapGet key' m.
Proof.
  induction m as [|[k w] m IH]; simpl.
  - destruct (decide (key = key')), (decide (key' = key)); congruence.
  - destruct (decide (k = key)) as [-> | Hk]; simpl.
    + destruct (decide (key = key')), (decide (key' = key)); congruence.
    + destruct (decide (k = key')) as [-> | Hk'].
      * rewrite decide_False by congruence. reflexivity.
      * exact IH.
Qed.

Lemma keys_mapSet (key : string) (v : V) (m : list (string * V)) :
  map fst (Js.mapSet key v m)
  = if decide (key ∈ map fst m) then map fst m else map fst m ++ [key].
Proof.
  induction m as [|[k w] m IH]; cbn [Js.mapSet map fst].
  - rewrite decide_False by apply not_elem_of_nil. reflexivity.
  - destruct (decide (k = key)) as [-> | Hk]; cbn [map fst].
    + rewrite decide_True by apply list_elem_of_here. reflexivity.
    + rewrite IH. destruct (decide (key ∈ map fst m)) as [Hin | Hin].
      * rewrite decide_True by (apply list_elem_of_further; assumption).
        reflexivity.
      * rewrite decide_False; [reflexivity|].
        rewrite elem_of_cons. intros [? | ?]; [congruence | contradiction].
Qed.

Lemma keys_mapSet_prefix (key : string) (v : V) (m : list (string * V)) :
  map fst m `prefix_of` map fst (Js.mapSet key v m).
Proof.
  rewrite keys_mapSet. case_decide; [reflexivity|].
  apply prefix_app_r. reflexivity.
Qed.

Lemma keys_mapSet_NoDup (key : string) (v : V) (m : list (string * V)) :
  NoDup (map fst m) -> NoDup (map fst (Js.mapSet key v m)).
Proof.
  intros H. rewrite keys_mapSet. case_decide; [assumption|].
  apply NoDup_app. split; [assumption|]. split; [|apply NoDup_singleton].
  intros x Hx Hx'. apply list_elem_of_singleton in Hx'. congruence.
Qed.

End MapFacts.

Section Ingestion.

Lemma dataMap_withDataMap (market : Market) (st : Manager)
    (m : list (string * ref)) :
  dataMap market (withDataMap market st m) = m.
Proof. destruct market; reflexivity. Qed.

Lemma tradingPairOf_history (st st' : Manager) (ticker : BinanceTickerData) :
  klineHistory st' = klineHistory st ->
  tradingPairOf st' ticker = tradingPairOf st ticker.
Proof.
  intros H. unfold tradingPairOf, getRSIForSymbol. rewrite H. reflexivity.
Qed.

(** One upsert: a fresh object, the old ones as they were. *)
Lemma upsertTicker_objects (market : Market) (st : Manager)
    (ticker : BinanceTickerData) :
  let r := fresh (dom (objects st)) in
  objects (upsertTicker market st ticker)
  = <[r := tradingPairOf st ticker]> (objects st)
  /\ objects st !! r = None
  /\ klineHistory (upsertTicker market st ticker) = klineHistory st
  /\ dataMap market (upsertTicker market st ticker)
     = Js.mapSet (t_s ticker) r (dataMap market st).
Proof.
  cbv zeta. unfold upsertTicker. split; [destruct market; reflexivity|].
  split; [apply not_elem_of_dom, is_fresh|].
  split; [destruct market; reflexivity|].
  destruct market; reflexivity.
Qed.

Lemma upsertTicker_keeps_object (market : Market) (st : Manager)
    (ticker : BinanceTickerData) (r : ref) (pair : TradingPair) :
  objects st !! r = Some pair ->
  objects (upsertTicker market st ticker) !! r = Some pair.
Proof.
  intros Hr. destruct (upsertTicker_objects market st ticker)
    as (Hobj & Hfresh & _).
  rewrite Hobj. rewrite lookup_insert_ne; [assumption|].
  intros E. rewrite E in Hfresh. congruence.
Qed.

Lemma upsertTickers_keep_object (market : Market)
    (tickers : list BinanceTickerData) (st : Manager) (r : ref)
    (pair : TradingPair) :
  objects st !! r = Some pair ->
  objects (foldl (upsertTicker market) st tickers) !! r = Some pair.
Proof.
  revert st. induction tickers as [|t tickers IH]; intros st Hr; simpl.
  - assumption.
  - apply IH, upsertTicker_keeps_object. assumption.
Qed.

Lemma upsertTickers_history (market : Market)
    (tickers : list BinanceTickerData) (st : Manager) :
  klineHistory (foldl (upsertTicker market) st tickers) = klineHistory st.
Proof.
  revert st. induction tickers as [|t tickers IH]; intros st; simpl.
  - reflexivity.
  - rewrite IH. apply upsertTicker_objects.
Qed.

(** Where an entry of the map comes from after a run of upserts. *)
Lemma upsertTickers_entries (market : Market)
    (tickers : list BinanceTickerData) (st : Manager) (key : string)
    (r : ref) :
  JsText.mapGet key (dataMap market (foldl (upsertTicker market) st tickers))
  = Some r ->
  (JsText.mapGet key (dataMap market st) = Some r
   /\ key ∉ map t_s tickers)
  \/ exists ticker,
       ticker ∈ tickers /\ t_s ticker = key
       /\ objects (foldl (upsertTicker market) st tickers) !! r
          = Some (tradingPairOf st ticker).
Proof.
  revert st. induction tickers as [|t tickers IH]; intros st Hget.
  - left. split; [exact Hget | apply not_elem_of_nil].
  - cbn [foldl] in *.
    destruct (upsertTicker_objects market st t) as (Hobj & _ & Hhist & Hmap).
    destruct (IH _ Hget) as [[Hold Hnot] | (t' & Hin & Hkey & Hr)].
    + rewrite Hmap, mapGet_mapSet in Hold.
      destruct (decide (key = t_s t)) as [-> | Hne].
      * right. exists t. split; [apply list_elem_of_here|].
        split; [reflexivity|]. injection Hold as <-.
        apply upsertTickers_keep_object. rewrite Hobj.
        apply lookup_insert_eq.
      * left. split; [exact Hold|]. cbn [map]. rewrite elem_of_cons.
        intros [? | ?]; [congruence | contradiction].
    + right. exists t'. split; [apply list_elem_of_further; exact Hin|].
      split; [exact Hkey|]. rewrite Hr.
      rewrite (tradingPairOf_history st _ t' Hhist). reflexivity.
Qed.

Lemma upsertTickers_keys (market : Market)
    (tickers : list BinanceTickerData) (st : Manager) :
  map fst (dataMap market st)
    `prefix_of` map fst (dataMap market (foldl (upsertTicker market) st tickers))
  /\ (NoDup (map fst (dataMap market st)) ->
      NoDup (map fst (dataMap market
                        (foldl (upsertTicker market) st tickers)))).
Proof.
  revert st. induction tickers as [|t tickers IH]; intros st; cbn [foldl].
  - split; [reflexivity | auto].
  - destruct (upsertTicker_objects market st t) as (_ & _ & _ & Hmap).
    destruct (IH (upsertTicker market st t)) as [Hpre Hnd].
    rewrite Hmap in Hpre, Hnd. split.
    + etrans; [apply keys_mapSet_prefix | exact Hpre].
    + intros H. apply Hnd, keys_mapSet_NoDup. exact H.
Qed.

End Ingestion.

Section TopFifty.

Lemma sortedTickers_unfold (tickers : list BinanceTickerData) :
  sortedTickers tickers
  = take 50 (Js.sort (fun a b => t_q b - t_q a)
               (List.filter (fun ticker => isTrackedSymbol (t_s ticker))
                            tickers)).
Proof. reflexivity. Qed.

Lemma sortedTickers_elem (tickers : list BinanceTickerData)
    (t : BinanceTickerData) :
  t ∈ sortedTickers tickers ->
  t ∈ tickers /\ isTrackedSymbol (t_s t) = true.
Proof.
  rewrite sortedTickers_unfold. intros H.
  apply (subseteq_take 50) in H.
  rewrite (sort_perm (fun a b => t_q b - t_q a)) in H.
  apply list_elem_of_In, filter_In in H. destruct H as [H1 H2].
  split; [apply list_elem_of_In; exact H1 | exact H2].
Qed.

End TopFifty.

(** X8.  [processTickers] keeps the 50 tracked tickers of largest quote
    volume: at most 50 tickers are upserted, each a USDT pair of the batch
    that is no leveraged token, in descending order of quote volume, and a
    tracked ticker of the batch that is left out has a quote volume no larger
    than any ticker that is kept. *)
Theorem sortedTickers_top_50 (tickers : list BinanceTickerData) :
  (length (sortedTickers tickers) <= 50)%nat
  /\ (forall t, t ∈ sortedTickers tickers ->
                t ∈ tickers /\ isTrackedSymbol (t_s t) = true)
  /\ StronglySorted (fun a b => t_q b <= t_q a) (sortedTickers tickers)
  /\ (forall t, t ∈ tickers -> isTrackedSymbol (t_s t) = true ->
                t ∈ sortedTickers tickers
                \/ forall t', t' ∈ sortedTickers tickers -> t_q t <= t_q t').
Proof.
  set (cmp := fun a b : BinanceTickerData => t_q b - t_q a).
  set (tracked := List.filter (fun ticker => isTrackedSymbol (t_s ticker))
                              tickers).
  assert (Hcmp : forall a b, cmp a b = t_q b - t_q a) by reflexivity.
  pose proof (sort_sorted t_q cmp Hcmp tracked) as Hsorted.
  split; [|split; [|split]].
  - rewrite sortedTickers_unfold, length_take. lia.
  - apply sortedTickers_elem.
  - rewrite sortedTickers_unfold. apply (take_sorted t_q). exact Hsorted.
  - intros t Hin Htracked.
    assert (Ht : t ∈ Js.sort cmp tracked).
    { rewrite (sort_perm cmp). apply list_elem_of_In, filter_In.
      split; [apply list_elem_of_In; exact Hin | exact Htracked]. }
    rewrite <- (take_drop 50 (Js.sort cmp tracked)) in Ht, Hsorted.
    apply elem_of_app in Ht as [Ht | Ht]; [left; exact Ht|].
    right. intros t' Ht'.
    apply (StronglySorted_app_1_elem_of _ _ _ t' t Hsorted); assumption.
Qed.

Section IngestionFrame.

Lemma upsertTickers_other_fields (market : Market)
    (tickers : list BinanceTickerData) (st : Manager) :
  let st' := foldl (upsertTicker market) st tickers in
  dataMap (otherMarket market) st' = dataMap (otherMarket market) st
  /\ reconnectTimeouts st' = reconnectTimeouts st
  /\ currentTopSymbols st' = currentTopSymbols st
  /\ klineStreamMap st' = klineStreamMap st
  /\ initialized st' = initialized st.
Proof.
  revert st. induction tickers as [|t tickers IH]; intros st; cbn [foldl].
  - repeat split.
  - cbv zeta in *.
    destruct (IH (upsertTicker market st t)) as (H1 & H2 & H3 & H4 & H5).
    rewrite H1, H2, H3, H4, H5. destruct market; repeat split.
Qed.

Lemma upsertTickers_key_count (market : Market)
    (tickers : list BinanceTickerData) (st : Manager) :
  (length (dataMap market (foldl (upsertTicker market) st tickers))
   <= length (dataMap market st) + length tickers)%nat.
Proof.
  revert st. induction tickers as [|t tickers IH]; intros st; cbn [foldl].
  - simpl. lia.
  - etrans; [apply IH|].
    destruct (upsertTicker_objects market st t) as (_ & _ & _ & Hmap).
    rewrite Hmap. rewrite <- !(length_map fst), keys_mapSet.
    case_decide; rewrite ?length_app; simpl; lia.
Qed.

End IngestionFrame.

(** X9.  A ticker batch never changes or removes what exists: every object
    created earlier keeps its fields, so arrays handed out before are not
    affected; the keys of the snapshot map stay in place and stay unique, at
    most 50 are added at the end; the other segment's map, the candle
    history and the connection state are untouched. *)
Theorem processTickers_keeps_what_exists (st : Manager)
    (tickers : list BinanceTickerData) (market : Market) :
  let st' := (processTickers st tickers market).1 in
  (forall r pair, objects st !! r = Some pair -> objects st' !! r = Some pair)
  /\ map fst (dataMap market st) `prefix_of` map fst (dataMap market st')
  /\ (NoDup (map fst (dataMap market st)) ->
      NoDup (map fst (dataMap market st')))
  /\ (length (dataMap market st') <= length (dataMap market st) + 50)%nat
  /\ dataMap (otherMarket market) st' = dataMap (otherMarket market) st
  /\ klineHistory st' = klineHistory st
  /\ reconnectTimeouts st' = reconnectTimeouts st
  /\ currentTopSymbols st' = currentTopSymbols st
  /\ klineStreamMap st' = klineStreamMap st.
Proof.
  cbv zeta. unfold processTickers. cbn [fst].
  destruct (upsertTickers_keys market (sortedTickers tickers) st) as [Hpre Hnd].
  destruct (upsertTickers_other_fields market (sortedTickers tickers) st)
    as (Hother & Htime & Htop & Hstream & _).
  split; [intros r pair; apply upsertTickers_keep_object|].
  split; [exact Hpre|]. split; [exact Hnd|].
  split.
  { etrans; [apply upsertTickers_key_count|].
    pose proof (sortedTickers_elem tickers) as _.
    rewrite sortedTickers_unfold, length_take. lia. }
  split; [exact Hother|]. split; [apply upsertTickers_history|].
  repeat split; assumption.
Qed.

(** X10.  After a ticker batch, an entry of the snapshot map is either the
    entry that was there, its symbol absent from the upserted tickers, or a
    new object built from a tracked ticker of the batch with that symbol:
    the ticker's price, volume, change, high and low, the RSI values of
    [getRSIForSymbol] at that price on the current candle history, and the
    signal of the daily RSI. *)
Theorem processTickers_entries (st : Manager)
    (tickers : list BinanceTickerData) (market : Market) (key : string)
    (r : ref) :
  let st' := (processTickers st tickers market).1 in
  JsText.mapGet key (dataMap market st') = Some r ->
  (JsText.mapGet key (dataMap market st) = Some r
   /\ key ∉ map t_s (sortedTickers tickers))
  \/ exists ticker rsiData,
       ticker ∈ tickers /\ isTrackedSymbol (t_s ticker) = true
       /\ t_s ticker = key
       /\ rsiData = getRSIForSymbol st key (Some (t_c ticker))
       /\ objects st' !! r
          = Some (mkTradingPair key (t_c ticker) (t_q ticker) (t_P ticker)
                    (t_h ticker) (t_l ticker)
                    (r_rsi1h rsiData) (r_rsi4h rsiData) (r_rsi1d rsiData)
                    (getRSISignal (r_rsi1d rsiData))).
Proof.
  cbv zeta. unfold processTickers. cbn [fst]. intros Hget.
  destruct (upsertTickers_entries market (sortedTickers tickers) st key r Hget)
    as [Hold | (t & Hin & Hkey & Hobj)]; [left; exact Hold|].
  right. destruct (sortedTickers_elem tickers t Hin) as [Hin' Htracked].
  exists t, (getRSIForSymbol st key (Some (t_c t))).
  split; [exact Hin'|]. split; [exact Htracked|]. split; [exact Hkey|].
  split; [reflexivity|]. rewrite Hobj. unfold tradingPairOf.
  rewrite Hkey. reflexivity.
Qed.

Lemma processTickers_entries_witness :
  let st' := (processTickers seededManager sampleTickers Spot).1 in
  JsText.mapGet "BTCUSDT" (dataMap Spot st') = Some 0%nat
  /\ ((JsText.mapGet "BTCUSDT" (dataMap Spot seededManager) = Some 0%nat
       /\ "BTCUSDT" ∉ map t_s (sortedTickers sampleTickers))
      \/ exists ticker rsiData,
           ticker ∈ sampleTickers /\ isTrackedSymbol (t_s ticker) = true
           /\ t_s ticker = "BTCUSDT"
           /\ rsiData = getRSIForSymbol seededManager "BTCUSDT"
                          (Some (t_c ticker))
           /\ objects st' !! 0%nat
              = Some (mkTradingPair "BTCUSDT" (t_c ticker) (t_q ticker)
                        (t_P ticker) (t_h ticker) (t_l ticker)
                        (r_rsi1h rsiData) (r_rsi4h rsiData) (r_rsi1d rsiData)
                        (getRSISignal (r_rsi1d rsiData)))).
Proof.
  cbv zeta.
  assert (Hget : JsText.mapGet "BTCUSDT"
            (dataMap Spot (processTickers seededManager sampleTickers Spot).1)
            = Some 0%nat) by reflexivity.
  split; [exact Hget|].
  exact (processTickers_entries seededManager sampleTickers Spot
           "BTCUSDT" 0%nat Hget).
Defined.

(** ** Signals stay consistent *)

Section SignalInvariant.
Variable rest : string -> string -> option (list Q).
Variable now : Z.

Lemma upsertTickers_signalConsistent (market : Market)
    (tickers : list BinanceTickerData) (st : Manager) :
  signalConsistent st ->
  signalConsistent (foldl (upsertTicker market) st tickers).
Proof.
  revert st. induction tickers as [|t tickers IH]; intros st H; cbn [foldl];
    [exact H|].
  apply IH. intros r pair Hr.
  destruct (upsertTicker_objects market st t) as (Hobj & _).
  rewrite Hobj in Hr. apply lookup_insert_Some in Hr as [[_ <-] | [_ Hr]].
  - reflexivity.
  - apply (H r pair Hr).
Qed.

Lemma ensureRSIForCoin_signalConsistent (st : Manager) (r : ref) :
  signalConsistent st -> signalConsistent (ensureRSIForCoin rest now st r).
Proof.
  intros H r' pair Hr. unfold ensureRSIForCoin in Hr.
  destruct (calculateRSIViaREST_shape rest now st (symbol (deref st r)))
    as [h E].
  rewrite E in Hr. simpl in Hr.
  apply lookup_insert_Some in Hr as [[_ <-] | [_ Hr]].
  - reflexivity.
  - apply (H r' pair Hr).
Qed.

Lemma ensureRSIForCoins_signalConsistent (st : Manager) (coins : list ref) :
  signalConsistent st -> signalConsistent (ensureRSIForCoins rest now st coins).
Proof.
  assert (Hfold : forall l st0, signalConsistent st0 ->
            signalConsistent (foldl (ensureRSIForCoin rest now) st0 l)).
  { induction l as [|r l IH]; intros st0 H0; simpl; [exact H0|].
    apply IH, ensureRSIForCoin_signalConsistent. exact H0. }
  intros H. unfold ensureRSIForCoins.
  destruct (length _ =? 0)%nat; [exact H | apply Hfold; exact H].
Qed.

Lemma getData_signalConsistent (data : Manager -> list (string * ref))
    (st : Manager) (limit : Z) :
  data = spotData \/ data = futuresData ->
  signalConsistent st ->
  signalConsistent (getData rest now data st limit).1.2.
Proof.
  intros Hdata H. destruct (getData_unfold rest now data st limit Hdata)
    as [E Hobj].
  rewrite E. cbn [fst snd]. apply ensureRSIForCoins_signalConsistent.
  intros r pair Hr. rewrite Hobj in Hr. apply (H r pair Hr).
Qed.

End SignalInvariant.

(** X11.  The signal stored in an object always is the signal of the daily
    RSI stored next to it: the ticker batches and the two snapshot queries
    keep this, and so do the candle messages and the rebalance pass, which
    touch no object. *)
Theorem signal_follows_daily_rsi
    (rest : string -> string -> option (list Q)) (now : Z) (st : Manager)
    (tickers : list BinanceTickerData) (market : Market) (limit : Z)
    (k : BinanceKlineData) :
  signalConsistent st ->
  signalConsistent (processTickers st tickers market).1
  /\ signalConsistent (getSpotData rest now st limit).1.2
  /\ signalConsistent (getFuturesData rest now st limit).1.2
  /\ signalConsistent (processKlineData st k)
  /\ signalConsistent (updateKlineStreamsBasedOnVolume st).1.
Proof.
  intros H. split; [apply upsertTickers_signalConsistent; exact H|].
  split; [apply getData_signalConsistent; [left; reflexivity | exact H]|].
  split; [apply getData_signalConsistent; [right; reflexivity | exact H]|].
  split.
  - intros r pair Hr. apply (H r pair).
    unfold processKlineData in Hr. destruct (negb (kd_x k)); exact Hr.
  - intros r pair Hr. apply (H r pair).
    unfold updateKlineStreamsBasedOnVolume in Hr.
    destruct (length (newTopSymbols st) =? 0)%nat eqn:E0; [exact Hr|].
    destruct (negb (setsEqual (currentTopSymbols st) (newTopSymbols st)));
      [|exact Hr].
    cbn [closeOldKlineStreams] in Hr.
    unfold connectKlineStreamsForSymbols in Hr. rewrite E0 in Hr.
    destruct (foldl openGroup _ _) as [streamMap effs]. exact Hr.
Qed.

Lemma signal_follows_daily_rsi_witness :
  signalConsistent pendingManager
  /\ signalConsistent (getSpotData mixedRest 0 pendingManager 50).1.2.
Proof.
  assert (H : signalConsistent pendingManager).
  { intros r pair Hr. unfold pendingManager in Hr. cbn [objects] in Hr.
    apply lookup_singleton_Some in Hr as [_ <-]. reflexivity. }
  split; [exact H|].
  apply (signal_follows_daily_rsi mixedRest 0 pendingManager [] Spot 50
           (mkKline "" "" 0 0 false) H).
Defined.

(** ** The supervisor: timers and lifecycle *)

Section Supervisor.

Lemma onTickerEvent_delay_values (st : Manager) (ev : TickerEvent) :
  dom (reconnectTimeouts st) ⊆ ({[ "spot-ticker"; "futures-ticker" ]} : gset string) ->
  Forall (fun d => d = 1000 \/ d = 2000 \/ d = 4000)%Z
         (reconnectDelays (onTickerEvent st ev).2).
Proof.
  intros H.
  assert (Hsize : (size (reconnectTimeouts st) <= 2)%nat).
  { rewrite <- size_dom. apply subseteq_size in H.
    rewrite size_union, !size_singleton in H; [exact H|].
    apply disjoint_singleton_l. rewrite elem_of_singleton. discriminate. }
  assert (Hdelay :
    let d := Z.min (initialReconnectDelay
                    * 2 ^ Z.of_nat (size (reconnectTimeouts st)))
                   maxReconnectDelay in
    (d = 1000 \/ d = 2000 \/ d = 4000)%Z).
  { unfold initialReconnectDelay, maxReconnectDelay.
    destruct (size (reconnectTimeouts st)) as [|[|[|n]]]; simpl; lia. }
  destruct ev; cbn [onTickerEvent].
  - unfold clearReconnectTimeout.
    destruct (reconnectTimeouts st !! _); simpl; constructor.
  - constructor; [exact Hdelay | constructor].
  - unfold clearReconnectTimeout.
    destruct (reconnectTimeouts st !! _); simpl; constructor.
  - constructor; [exact Hdelay | constructor].
Qed.

Lemma onTickerEvents_delay_values (evs : list TickerEvent) (st : Manager) :
  dom (reconnectTimeouts st) ⊆ ({[ "spot-ticker"; "futures-ticker" ]} : gset string) ->
  Forall (fun d => d = 1000 \/ d = 2000 \/ d = 4000)%Z
         (reconnectDelays (onTickerEvents st evs).2).
Proof.
  revert st. induction evs as [|ev evs IH]; intros st H; simpl.
  - constructor.
  - pose proof (onTickerEvent_keys st ev H) as Hk.
    pose proof (onTickerEvent_delay_values st ev H) as Hd.
    destruct (onTickerEvent st ev) as [st1 eff1]. simpl in Hk, Hd.
    specialize (IH st1 Hk).
    destruct (onTickerEvents st1 evs) as [st2 eff2]. simpl in *.
    unfold reconnectDelays in *. rewrite omap_app.
    apply Forall_app. split; assumption.
Qed.

Lemma withReconnectTimeouts_id (st : Manager) :
  withReconnectTimeouts st (reconnectTimeouts st) = st.
Proof. destruct st; reflexivity. Qed.

End Supervisor.

(** X12.  Whatever the sequence of open and close events of the two ticker
    sockets of a new manager, every reconnect timer is armed with 1000, 2000
    or 4000 ms. *)
Theorem reconnect_delays_are_1_2_or_4_seconds (evs : list TickerEvent) :
  Forall (fun d => d = 1000 \/ d = 2000 \/ d = 4000)%Z
         (reconnectDelays (onTickerEvents newManager evs).2).
Proof.
  apply onTickerEvents_delay_values. simpl. rewrite dom_empty_L.
  apply empty_subseteq.
Qed.

Section QueryLifecycle.
Variable rest : string -> string -> option (list Q).
Variable now : Z.

(** The fields that [initialize] sets. *)
Lemma ensureRSIForCoin_lifecycle (st : Manager) (r : ref) :
  let st' := ensureRSIForCoin rest now st r in
  spotTickerWs st' = spotTickerWs st
  /\ futuresTickerWs st' = futuresTickerWs st
  /\ volumeCheckInterval st' = volumeCheckInterval st
  /\ initialized st' = initialized st.
Proof.
  cbv zeta. unfold ensureRSIForCoin.
  destruct (calculateRSIViaREST_shape rest now st (symbol (deref st r)))
    as [h E].
  rewrite E. repeat split.
Qed.

Lemma ensureRSIForCoins_lifecycle (st : Manager) (coins : list ref) :
  let st' := ensureRSIForCoins rest now st coins in
  spotTickerWs st' = spotTickerWs st
  /\ futuresTickerWs st' = futuresTickerWs st
  /\ volumeCheckInterval st' = volumeCheckInterval st
  /\ initialized st' = initialized st.
Proof.
  cbv zeta.
  assert (Hfold : forall l st0,
            let st' := foldl (ensureRSIForCoin rest now) st0 l in
            spotTickerWs st' = spotTickerWs st0
            /\ futuresTickerWs st' = futuresTickerWs st0
            /\ volumeCheckInterval st' = volumeCheckInterval st0
            /\ initialized st' = initialized st0).
  { induction l as [|r l IH]; intros st0; cbn [foldl]; [repeat split|].
    destruct (IH (ensureRSIForCoin rest now st0 r)) as (E1 & E2 & E3 & E4).
    destruct (ensureRSIForCoin_lifecycle st0 r) as (F1 & F2 & F3 & F4).
    cbv zeta. repeat split; congruence. }
  unfold ensureRSIForCoins.
  destruct (length _ =? 0)%nat; [repeat split | apply Hfold].
Qed.

End QueryLifecycle.

(** X13.  [initialize] acts once.  The first call marks the manager
    initialized, opens the two ticker sockets and arms the monitoring
    interval of 10000 ms and its first run after 5000 ms.  A second call
    changes nothing and has no effect.  A snapshot query on an initialized
    manager does not run it again: the ticker sockets, the monitoring timer
    and the flag are as before the query. *)
Theorem initialize_acts_once
    (rest : string -> string -> option (list Q)) (now : Z) (st : Manager)
    (limit : Z) :
  initialized (initialize st).1 = true
  /\ initialize (initialize st).1 = ((initialize st).1, [])
  /\ (initialized st = false ->
      (initialize st).2
      = [NewWebSocket (mkWebSocket spotTickerUrl);
         NewWebSocket (mkWebSocket futuresTickerUrl);
         SetInterval (mkTimeout 10000 UpdateKlineStreams);
         SetTimeout (mkTimeout 5000 UpdateKlineStreams)]
      /\ spotTickerWs (initialize st).1 = Some (mkWebSocket spotTickerUrl)
      /\ futuresTickerWs (initialize st).1
         = Some (mkWebSocket futuresTickerUrl)
      /\ volumeCheckInterval (initialize st).1
         = Some (mkTimeout 10000 UpdateKlineStreams))
  /\ (forall data, data = spotData \/ data = futuresData ->
      let st1 := (initialize st).1 in
      let st2 := (getData rest now data st1 limit).1.2 in
      spotTickerWs st2 = spotTickerWs st1
      /\ futuresTickerWs st2 = futuresTickerWs st1
      /\ volumeCheckInterval st2 = volumeCheckInterval st1
      /\ initialized st2 = true).
Proof.
  assert (H : initialized (initialize st).1 = true).
  { unfold initialize. destruct (initialized st) eqn:E; [exact E | reflexivity]. }
  split; [exact H|]. split; [|split].
  - unfold initialize at 1. rewrite H. reflexivity.
  - intros E. unfold initialize. rewrite E. repeat split.
  - intros data Hdata. cbv zeta.
    destruct (getData_unfold rest now data (initialize st).1 limit Hdata)
      as [E _].
    rewrite E, H. cbn [fst snd].
    match goal with |- context [ensureRSIForCoins _ _ ?s ?c] =>
      destruct (ensureRSIForCoins_lifecycle rest now s c) as (E1 & E2 & E3 & E4)
    end.
    repeat split; congruence.
Qed.

(** X14.  A close of a connection that has no pending entry followed by its
    successful open brings the timer table back: the open clears exactly
    the timer the close armed, and the manager is as before. *)
Theorem reconnect_timer_round_trip (st : Manager) (type : string)
    (fn : TimerAction) :
  reconnectTimeouts st !! type = None ->
  let closed := scheduleReconnect st type fn in
  exists t,
    closed.2 = [SetTimeout t]
    /\ clearReconnectTimeout closed.1 type = (st, [ClearTimeout t]).
Proof.
  intros Hnone. cbv zeta. eexists. split; [reflexivity|].
  unfold clearReconnectTimeout, scheduleReconnect. cbn [fst snd].
  cbn [reconnectTimeouts withReconnectTimeouts].
  rewrite lookup_insert_eq. f_equal.
  rewrite delete_insert_eq, delete_id by exact Hnone.
  destruct st; reflexivity.
Qed.

Lemma reconnect_timer_round_trip_witness :
  reconnectTimeouts tieManager !! "spot-ticker" = None
  /\ exists t,
       (scheduleReconnect tieManager "spot-ticker" ConnectSpotTicker).2
       = [SetTimeout t]
       /\ clearReconnectTimeout
            (scheduleReconnect tieManager "spot-ticker" ConnectSpotTicker).1
            "spot-ticker"
          = (tieManager, [ClearTimeout t]).
Proof.
  assert (H : reconnectTimeouts tieManager !! "spot-ticker" = None)
    by reflexivity.
  split; [exact H|].
  exact (reconnect_timer_round_trip tieManager "spot-ticker"
           ConnectSpotTicker H).
Defined.

(** X15.  [close()] empties both snapshot maps, the candle history, the
    timer table, the active set and [klineStreamMap], and sets the flag to
    false.  It clears every reconnect timer and closes both ticker sockets
    and the candle sockets held in [klineStreamMap], and no other socket: in
    the run of [thirdPass], where the second candle socket is open and in no
    map, [close()] closes the third one only.  It detaches no handler: the
    ['close'] event of the spot ticker socket then arms a reconnect timer of
    1000 ms.  The next snapshot query finds no entry and initializes the
    manager again. *)
Theorem close_resets_but_reconnects
    (rest : string -> string -> option (list Q)) (now : Z) (st : Manager)
    (limit : Z) :
  let st' := (Lifecycle.close st).1 in
  let effs := (Lifecycle.close st).2 in
  (spotData st' = [] /\ futuresData st' = [] /\ klineHistory st' = ∅
   /\ reconnectTimeouts st' = ∅ /\ currentTopSymbols st' = []
   /\ klineStreamMap st' = [] /\ initialized st' = false)
  /\ (forall type t, reconnectTimeouts st !! type = Some t ->
                     ClearTimeout t ∈ effs)
  /\ (forall key ws, (key, ws) ∈ klineStreamMap st -> CloseWebSocket ws ∈ effs)
  /\ (forall ws, spotTickerWs st = Some ws \/ futuresTickerWs st = Some ws ->
                 CloseWebSocket ws ∈ effs)
  /\ (forall ws, CloseWebSocket ws ∈ effs ->
                 spotTickerWs st = Some ws \/ futuresTickerWs st = Some ws
                 \/ exists key, (key, ws) ∈ klineStreamMap st)
  /\ (secondSocket ∈ openSockets (firstPass.2 ++ secondPass.2 ++ thirdPass.2)
      /\ (Lifecycle.close thirdPass.1).2 = [CloseWebSocket thirdSocket])
  /\ reconnectDelays (onTickerEvent st' SpotClose).2 = [1000%Z]
  /\ (getSpotData rest now st' limit).1.1 = []
  /\ initialized (getSpotData rest now st' limit).1.2 = true.
Proof.
  cbv zeta.
  split; [unfold Lifecycle.close; cbn [fst snd]; repeat split|].
  split; [|split; [|split; [|split; [|split; [|split; [|split]]]]]].
  - unfold Lifecycle.close. cbn [fst snd].
    intros type t Ht. apply elem_of_app. left.
    apply list_elem_of_fmap. exists (type, t). split; [reflexivity|].
    apply elem_of_map_to_list. exact Ht.
  - unfold Lifecycle.close. cbn [fst snd].
    intros key ws Hin. rewrite !elem_of_app. right. right. right.
    apply list_elem_of_fmap. exists (key, ws). split; [reflexivity | exact Hin].
  - unfold Lifecycle.close. cbn [fst snd].
    intros ws [H | H]; rewrite H, !elem_of_app; right; right; left;
      [left | right]; apply list_elem_of_here.
  - unfold Lifecycle.close. cbn [fst snd].
    intros ws. rewrite !elem_of_app. intros [H | [H | [[H | H] | H]]].
    + apply list_elem_of_fmap in H as [[type t] [E _]]. discriminate E.
    + destruct (volumeCheckInterval st); [|inversion H].
      apply list_elem_of_singleton in H. discriminate H.
    + destruct (spotTickerWs st) as [w|]; [|inversion H].
      apply list_elem_of_singleton in H. left. congruence.
    + destruct (futuresTickerWs st) as [w|]; [|inversion H].
      apply list_elem_of_singleton in H. right. left. congruence.
    + apply list_elem_of_fmap in H as [[key w] [E Hin]].
      right. right. exists key. congruence.
  - split; [apply list_elem_of_In; vm_compute; left; reflexivity|].
    vm_compute. reflexivity.
  - reflexivity.
  - unfold Lifecycle.close. cbn [fst snd]. unfold getSpotData.
    match goal with |- (getData _ _ _ ?c _).1.1 = _ =>
      destruct (getData_unfold rest now spotData c limit) as [E _];
        [left; reflexivity | rewrite E]
    end.
    cbn [fst snd spotData Js.mapValues map Js.sort foldr].
    unfold Js.sliceTo. destruct (limit <? 0)%Z; apply take_nil.
  - unfold Lifecycle.close. cbn [fst snd]. unfold getSpotData.
    match goal with |- initialized (getData _ _ _ ?c _).1.2 = _ =>
      destruct (getData_unfold rest now spotData c limit) as [E _];
        [left; reflexivity | rewrite E]
    end.
    cbn [fst snd spotData Js.mapValues map Js.sort foldr initialized].
    assert (Hnil : Js.sliceTo limit ([] : list ref) = []).
    { unfold Js.sliceTo. destruct (limit <? 0)%Z; apply take_nil. }
    rewrite Hnil. reflexivity.
Qed.

(** ** The rebalancer: repeated passes, groups, reconnects *)

Section RebalanceMore.

Lemma setsEqual_refl (set : list string) : setsEqual set set = true.
Proof.
  unfold setsEqual. rewrite Nat.eqb_refl. simpl.
  apply forallb_forall. intros x Hx. apply bool_decide_eq_true.
  apply list_elem_of_In. exact Hx.
Qed.

Lemma streamGroupsFrom_lookup (fuel i j : nat) (streams : list string) :
  (length streams - i <= fuel)%nat ->
  streamGroupsFrom fuel i streams !! j
  = if (i + 30 * j <? length streams)%nat
    then Some (take 30 (drop (i + 30 * j) streams))
    else None.
Proof.
  revert i j. induction fuel as [|fuel IH]; intros i j Hfuel;
    cbn [streamGroupsFrom].
  - rewrite lookup_nil.
    destruct (Nat.ltb_spec (i + 30 * j) (length streams)); [lia | reflexivity].
  - destruct (Nat.ltb_spec i (length streams)) as [Hi | Hi].
    + destruct j as [|j].
      * rewrite Nat.mul_0_r, Nat.add_0_r.
        destruct (Nat.ltb_spec i (length streams)); [reflexivity | lia].
      * change ((?x :: ?l) !! S j) with (l !! j). rewrite IH by lia.
        replace (i + 30 + 30 * j)%nat with (i + 30 * S j)%nat by lia.
        reflexivity.
    + rewrite lookup_nil.
      destruct (Nat.ltb_spec (i + 30 * j) (length streams)); [lia|].
      reflexivity.
Qed.

(** What [connectKlineStreamsForSymbols] does with a list that is not
    empty. *)
Lemma connectKlineStreamsForSymbols_nonempty (st : Manager)
    (symbols : list string) :
  symbols <> [] ->
  let prioritySymbols := take 10 symbols in
  let ws := mkWebSocket (klineStreamUrl (allStreams prioritySymbols)) in
  connectKlineStreamsForSymbols st symbols
  = (withKlineStreamMap st (Js.mapSet (groupKey 0) ws (klineStreamMap st)),
     [NewWebSocket ws;
      SetTimeout (mkTimeout 30000 (FallbackRSICalculation prioritySymbols))]).
Proof.
  intros Hne. cbv zeta. unfold connectKlineStreamsForSymbols.
  assert (Hlen : (length symbols =? 0)%nat = false).
  { apply Nat.eqb_neq. destruct symbols; simpl; [congruence | lia]. }
  rewrite Hlen. change (Js.sliceTo 10 symbols) with (take 10 symbols).
  rewrite streamGroups_single.
  - reflexivity.
  - rewrite allStreams_length, length_take. apply Nat.eqb_neq in Hlen. lia.
  - rewrite allStreams_length, length_take. lia.
Qed.

End RebalanceMore.

(** X16.  A rebalance pass that directly follows another one does nothing:
    no socket is closed or opened and the manager stays as the first pass
    left it. *)
Theorem rebalance_pass_twice (st : Manager) :
  updateKlineStreamsBasedOnVolume (updateKlineStreamsBasedOnVolume st).1
  = ((updateKlineStreamsBasedOnVolume st).1, []).
Proof.
  unfold updateKlineStreamsBasedOnVolume at 2 3.
  destruct (length (newTopSymbols st) =? 0)%nat eqn:E0.
  { cbn [fst]. unfold updateKlineStreamsBasedOnVolume. rewrite E0.
    reflexivity. }
  destruct (setsEqual (currentTopSymbols st) (newTopSymbols st)) eqn:Eq.
  { cbn [negb fst]. unfold updateKlineStreamsBasedOnVolume.
    rewrite E0, Eq. reflexivity. }
  cbn [negb closeOldKlineStreams].
  rewrite connectKlineStreamsForSymbols_nonempty.
  2:{ intros E. rewrite E in E0. discriminate. }
  cbn [fst]. unfold updateKlineStreamsBasedOnVolume.
  match goal with |- context [newTopSymbols ?s] =>
    change (newTopSymbols s) with (newTopSymbols st) end.
  rewrite E0. cbn [currentTopSymbols withKlineStreamMap withCurrentTopSymbols].
  rewrite setsEqual_refl. reflexivity.
Qed.

(** X17.  On two sets, that is two lists without repetition, [setsEqual]
    answers true exactly when they have the same elements, whatever their
    orders. *)
Theorem setsEqual_decides_set_equality (set1 set2 : list string) :
  NoDup set1 -> NoDup set2 ->
  (setsEqual set1 set2 = true <-> forall x, x ∈ set1 <-> x ∈ set2).
Proof. apply setsEqual_spec. Qed.

Lemma setsEqual_decides_set_equality_witness :
  NoDup ["BTCUSDT"; "ETHUSDT"] /\ NoDup ["ETHUSDT"; "BTCUSDT"]
  /\ (setsEqual ["BTCUSDT"; "ETHUSDT"] ["ETHUSDT"; "BTCUSDT"] = true
      <-> forall x, x ∈ ["BTCUSDT"; "ETHUSDT"] <-> x ∈ ["ETHUSDT"; "BTCUSDT"]).
Proof.
  assert (H1 : NoDup ["BTCUSDT"; "ETHUSDT"]).
  { apply NoDup_ListNoDup. repeat constructor; simpl; intuition discriminate. }
  assert (H2 : NoDup ["ETHUSDT"; "BTCUSDT"]).
  { apply NoDup_ListNoDup. repeat constructor; simpl; intuition discriminate. }
  split; [exact H1|]. split; [exact H2|].
  exact (setsEqual_decides_set_equality _ _ H1 H2).
Defined.

(** X18.  For any list of stream identifiers, group number [j] (from 0) is
    the slice of 30 identifiers starting at position [30 * j], and there is
    such a group exactly while [30 * j] is below the length of the list; so
    every group but the last has 30 identifiers and the groups together are
    the list. *)
Theorem streamGroups_are_slices (streams : list string) (j : nat) :
  streamGroups streams !! j
  = (if (30 * j <? length streams)%nat
     then Some (take 30 (drop (30 * j) streams))
     else None)
  /\ concat (streamGroups streams) = streams.
Proof.
  split.
  - unfold streamGroups. rewrite streamGroupsFrom_lookup by lia. reflexivity.
  - unfold streamGroups. rewrite streamGroupsFrom_concat by lia. reflexivity.
Qed.

Section KlineReconnect.

Lemma upper_lower_plain (c : ascii) :
  isPlainChar c = true ->
  JsText.upperAscii (Js.lowerAscii c) = c
  /\ Ascii.eqb (Js.lowerAscii c) "@" = false.
Proof.
  destruct c as [[] [] [] [] [] [] [] []]; vm_compute;
    intros H; try discriminate H; split; reflexivity.
Qed.

Lemma toUpperCase_toLowerCase (s : string) :
  isPlainSymbol s = true -> JsText.toUpperCase (Js.toLowerCase s) = s.
Proof.
  induction s as [|c s IH]; intros H; [reflexivity|].
  cbn [isPlainSymbol] in H. apply andb_true_iff in H as [Hc Hs].
  cbn [Js.toLowerCase JsText.toUpperCase].
  rewrite (proj1 (upper_lower_plain c Hc)), IH by exact Hs. reflexivity.
Qed.

Lemma beforeFirst_stream (s tail : string) :
  isPlainSymbol s = true ->
  JsText.beforeFirst "@" (Js.toLowerCase s +:+ String "@" tail)
  = Js.toLowerCase s.
Proof.
  induction s as [|c s IH]; intros H; [reflexivity|].
  cbn [isPlainSymbol] in H. apply andb_true_iff in H as [Hc Hs].
  cbn [Js.toLowerCase].
  change (String ?a ?b +:+ ?t) with (String a (b +:+ t)).
  cbn [JsText.beforeFirst].
  rewrite (proj2 (upper_lower_plain c Hc)), IH by exact Hs. reflexivity.
Qed.

Lemma symbolsInGroup_allStreams (symbols : list string) :
  Forall (fun s => isPlainSymbol s = true) symbols ->
  symbolsInGroup (allStreams symbols) = flat_map (fun s => [s; s; s]) symbols.
Proof.
  induction 1 as [|s symbols Hs _ IH]; [reflexivity|].
  unfold symbolsInGroup, allStreams in *. cbn [flat_map].
  rewrite map_app, IH. f_equal.
  cbn [intervals map].
  change ("@kline_" +:+ ?i) with (String "@" ("kline_" +:+ i)).
  rewrite !beforeFirst_stream, !toUpperCase_toLowerCase by exact Hs.
  reflexivity.
Qed.

Lemma take_10_of_triples (symbols : list string) (x : string) :
  x ∈ take 10 (flat_map (fun s => [s; s; s]) symbols) -> x ∈ take 4 symbols.
Proof.
  destruct symbols as [|a [|b [|c [|d rest]]]]; cbn [flat_map app take];
    rewrite ?elem_of_cons, ?elem_of_nil; intuition.
Qed.

(** [delete] on a map, whose keys are distinct: the key is gone and every
    other key keeps its value. *)
Lemma mapGet_mapDelete {V : Type} (key k : string) (m : list (string * V)) :
  NoDup (map fst m) ->
  JsText.mapGet k (JsText.mapDelete key m)
  = if decide (k = key) then None else JsText.mapGet k m.
Proof.
  induction m as [|[k0 w] m IH]; intros Hnd; cbn [JsText.mapDelete JsText.mapGet].
  - destruct (decide (k = key)); reflexivity.
  - cbn [map fst] in Hnd. apply NoDup_cons in Hnd as [Hk0 Hnd].
    destruct (decide (k0 = key)) as [-> | Hne].
    + destruct (decide (k = key)) as [-> | Hk].
      * clear IH. induction m as [|[k1 w1] m IHm]; [reflexivity|].
        cbn [JsText.mapGet]. cbn [map fst] in Hk0, Hnd.
        apply NoDup_cons in Hnd as [_ Hnd].
        rewrite not_elem_of_cons in Hk0. destruct Hk0 as [Hk1 Hk0].
        destruct (decide (k1 = key)); [congruence|]. apply IHm; assumption.
      * cbn [JsText.mapGet]. destruct (decide (key = k)); [congruence|].
        reflexivity.
    + cbn [JsText.mapGet]. destruct (decide (k0 = k)) as [-> | Hk].
      * destruct (decide (k = key)); [congruence | reflexivity].
      * apply IH. exact Hnd.
Qed.

End KlineReconnect.

(** X19.  When the socket of candle group 0 closes, the entry [group_0] of
    [klineStreamMap] is deleted, whichever socket it holds, every other
    entry and the active set are kept, and a timer of 10000 ms is armed.
    The timer reads the symbols back from the stream identifiers, each
    symbol three times, once per interval.  If they all are still in the
    active set, one new socket is opened for the first 10 entries of that
    tripled list: only the first 4 symbols of the group are subscribed
    again, and no socket is closed. *)
Theorem kline_reconnect_covers_four_symbols (st : Manager)
    (symbols : list string) :
  NoDup (map fst (klineStreamMap st)) ->
  Forall (fun s => isPlainSymbol s = true) symbols ->
  Forall (fun s => s ∈ currentTopSymbols st) symbols ->
  symbols <> [] ->
  let tripled := flat_map (fun s => [s; s; s]) symbols in
  let ws := mkWebSocket (klineStreamUrl (allStreams (take 10 tripled))) in
  (forall key,
     JsText.mapGet key (klineStreamMap (onKlineClose st 0).1)
     = if decide (key = "group_0") then None
       else JsText.mapGet key (klineStreamMap st))
  /\ currentTopSymbols (onKlineClose st 0).1 = currentTopSymbols st
  /\ (onKlineClose st 0).2 = 10000%Z
  /\ symbolsInGroup (allStreams symbols) = tripled
  /\ reconnectKlineGroup st (allStreams symbols)
     = (withKlineStreamMap st (Js.mapSet "group_0" ws (klineStreamMap st)),
        [NewWebSocket ws;
         SetTimeout (mkTimeout 30000
                       (FallbackRSICalculation (take 10 tripled)))])
  /\ (forall x, x ∈ take 10 tripled -> x ∈ take 4 symbols).
Proof.
  intros Hkeys Hplain Hrel Hne. cbv zeta.
  split; [intros key; apply (mapGet_mapDelete "group_0" key); exact Hkeys|].
  split; [reflexivity|].
  split; [reflexivity|].
  split; [apply symbolsInGroup_allStreams; exact Hplain|].
  split; [|apply take_10_of_triples].
  unfold reconnectKlineGroup.
  rewrite symbolsInGroup_allStreams by exact Hplain.
  assert (Hall : List.filter
            (fun sym => bool_decide (sym ∈ currentTopSymbols st))
            (flat_map (fun s => [s; s; s]) symbols)
          = flat_map (fun s => [s; s; s]) symbols).
  { clear Hplain Hne. induction Hrel as [|s l Hs _ IH]; [reflexivity|].
    cbn [flat_map app List.filter].
    rewrite !bool_decide_eq_true_2 by exact Hs. rewrite IH. reflexivity. }
  rewrite Hall.
  assert (Hne' : flat_map (fun s => [s; s; s]) symbols <> []).
  { destruct symbols; [congruence | discriminate]. }
  destruct (Nat.ltb_spec 0 (length (flat_map (fun s => [s; s; s]) symbols)))
    as [_ | Hlen].
  - apply (connectKlineStreamsForSymbols_nonempty st _ Hne').
  - destruct (flat_map (fun s => [s; s; s]) symbols); [congruence|].
    simpl in Hlen. lia.
Qed.

Lemma kline_reconnect_covers_four_symbols_witness :
  let symbols := ["AUSDT"; "BUSDT"; "CUSDT"; "DUSDT"; "EUSDT"] in
  let st :=
    withKlineStreamMap (withCurrentTopSymbols newManager symbols)
      [("group_0", mkWebSocket (klineStreamUrl (allStreams symbols)))] in
  NoDup (map fst (klineStreamMap st))
  /\ Forall (fun s => isPlainSymbol s = true) symbols
  /\ Forall (fun s => s ∈ currentTopSymbols st) symbols
  /\ JsText.mapGet "group_0" (klineStreamMap (onKlineClose st 0).1) = None
  /\ take 10 (symbolsInGroup (allStreams symbols))
     = ["AUSDT"; "AUSDT"; "AUSDT"; "BUSDT"; "BUSDT"; "BUSDT";
        "CUSDT"; "CUSDT"; "CUSDT"; "DUSDT"].
Proof.
  cbv zeta.
  set (symbols := ["AUSDT"; "BUSDT"; "CUSDT"; "DUSDT"; "EUSDT"]).
  set (st := withKlineStreamMap (withCurrentTopSymbols newManager symbols)
               [("group_0", mkWebSocket (klineStreamUrl (allStreams symbols)))]).
  assert (H0 : NoDup (map fst (klineStreamMap st))).
  { apply NoDup_singleton. }
  assert (H1 : Forall (fun s => isPlainSymbol s = true) symbols)
    by (repeat constructor).
  assert (H2 : Forall (fun s => s ∈ currentTopSymbols st) symbols).
  { repeat constructor; apply list_elem_of_In; simpl; auto 10. }
  split; [exact H0|]. split; [exact H1|]. split; [exact H2|].
  destruct (kline_reconnect_covers_four_symbols st symbols H0 H1 H2)
    as (Hdel & _ & _ & E & _).
  - discriminate.
  - split; [rewrite Hdel; reflexivity|]. rewrite E. reflexivity.
Defined.

(** ** Indicator values of a symbol: when they are defined *)

Section Defined.


End Defined.





(** ** The range test of [wilderRSI] *)

(** X22.  For a period of at least one the range test at the end of
    [wilderRSI] never rejects a value: the function returns what the
    earlier revision without the test returns. *)
Theorem wilderRSI_range_test_never_fires (closes : list Q) (period : nat) :
  (0 < period)%nat ->
  wilderRSI closes period = Legacy.wilderRSI closes period.
Proof.
  intros Hper. unfold wilderRSI, Legacy.wilderRSI.
  destruct (length closes <? period + 1)%nat; [reflexivity|].
  destruct (wilderAverages_nonneg closes period Hper) as (g & l & E & Hg & Hl).
  rewrite E. cbn [bind].
  destruct (Qeq_bool l 0) eqn:El; [reflexivity|].
  apply Qeq_bool_false in El.
  assert (Hl' : 0 < l) by lra.
  destruct (rsi_of_averages g l Hg Hl') as (rs & q & Ers & Eq & _ & Hlo & Hhi).
  rewrite Ers. cbn [bind]. rewrite Eq. cbn [bind].
  destruct (toFixed2_range (100 - q) Hlo Hhi) as [Hr0 Hr100].
  apply Qlt_bool_false in Hr0, Hr100. rewrite Hr0, Hr100. reflexivity.
Qed.

Lemma wilderRSI_range_test_never_fires_witness :
  (0 < 14)%nat /\ wilderRSI mixedCloses 14 = Legacy.wilderRSI mixedCloses 14.
Proof.
  split; [lia|]. apply (wilderRSI_range_test_never_fires mixedCloses 14). lia.
Defined.
